(** * Lucky number demo: startup gate, forwarder and busy-wait backend

    A shallow embedding of the two Node.js services of the repository:

    - [Frontend] : [apps/lucky-web-app/server.js] (with the component
      [component/LuckyPage.jsx]), the server that probes the backend
      once and only then binds its listener;
    - [Backend]  : the lucky-number backend (delayed start, busy-wait
      [/lucky] handler, [/ping] readiness endpoint).

    JavaScript statements are written in a small state monad with four
    outcomes (normal return, thrown exception, [process.exit], and a
    promise that never settles).  Everything the services see of the
    outside world (the fetch library, the renderer, the clock, the random
    source, the environment variables) is an explicit oracle.  Numbers
    are IEEE 754 doubles: each arithmetic operation rounds its exact
    result to the nearest double. *)

From Stdlib Require Import ZArith QArith Qround Qpower String Ascii List Bool Lia Lqa.
From Stdlib Require Import DecimalString.
Import ListNotations.
Local Open Scope string_scope.
Local Open Scope Z_scope.
Set Warnings "-register-all".

(* ===================================================================== *)
(** * JavaScript values and effects                                       *)
(* ===================================================================== *)

Module JS.

(** An [Error] object, as far as the services look at it. *)
Record Error : Type := mkError { name : string; message : string }.

(** [new Error(msg)] *)
Definition new_Error (msg : string) : Error :=
  {| name := "Error"; message := msg |}.

(** The [TypeError] V8 raises for [null.prop]. *)
Definition null_access (prop : string) : Error :=
  {| name := "TypeError";
     message := "Cannot read properties of null (reading '" ++ prop ++ "')" |}.

(** What [JSON.parse] can produce.  Numbers are IEEE doubles, every one
    of which is a rational; members of an object are kept in source
    order. *)
Inductive Json : Type :=
| JNull
| JBool (b : bool)
| JNum (q : Q)
| JStr (s : string)
| JArr (items : list Json)
| JObj (members : list (string * Json)).

(** A JavaScript value that came out of a property read: [None] is
    [undefined]. *)
Definition Value : Type := option Json.

(** Own member of a parsed object; for a repeated key [JSON.parse] keeps
    the last occurrence. *)
Fixpoint member (key : string) (members : list (string * Json)) : Value :=
  match members with
  | [] => None
  | (k, v) :: rest =>
      match member key rest with
      | Some later => Some later
      | None => if String.eqb k key then Some v else None
      end
  end.

(** [v === 'lit'] for a string literal. *)
Definition strict_eq_str (v : Value) (lit : string) : bool :=
  match v with
  | Some (JStr s) => String.eqb s lit
  | _ => false
  end.

(** Truthiness of an environment entry: unset and the empty string are
    falsy, so [process.env.X || dflt] falls back to [dflt] for both. *)
Definition or_default (v : option string) (dflt : string) : string :=
  match v with
  | Some s => if String.eqb s "" then dflt else s
  | None => dflt
  end.

(** String conversion of an environment entry inside a template literal
    or a [console.log] argument list. *)
Definition show_env (v : option string) : string :=
  match v with
  | Some s => s
  | None => "undefined"
  end.

(** Decimal rendering of an integer-valued number. *)
Definition show_Z (z : Z) : string := NilZero.string_of_int (Z.to_int z).

(** [console.log(a, b)] joins its arguments with one space. *)
Definition spaced (a b : string) : string := a ++ " " ++ b.

(** ** The effect monad *)

Inductive Outcome (A : Type) : Type :=
| Return (a : A)          (* normal completion *)
| Throw (e : Error)       (* exception, or an awaited promise rejected *)
| Exit (code : Z)         (* process.exit(code) *)
| Pending.                (* an awaited promise never settles / endless loop *)
Arguments Return {A} a.
Arguments Throw {A} e.
Arguments Exit {A} code.
Arguments Pending {A}.

Definition M (S A : Type) : Type := S -> Outcome A * S.

Definition ret {S A} (a : A) : M S A := fun s => (Return a, s).

Definition bind {S A B} (m : M S A) (k : A -> M S B) : M S B :=
  fun s =>
    match m s with
    | (Return a, s') => k a s'
    | (Throw e, s') => (Throw e, s')
    | (Exit c, s') => (Exit c, s')
    | (Pending, s') => (Pending, s')
    end.

Definition throw {S A} (e : Error) : M S A := fun s => (Throw e, s).

(** [process.exit(code)]: nothing after it runs, and no [catch] sees it. *)
Definition process_exit {S A} (code : Z) : M S A := fun s => (Exit code, s).

Definition never {S A} : M S A := fun s => (Pending, s).

(** [try { body } catch (err) { handler }] *)
Definition try_catch {S A} (body : M S A) (handler : Error -> M S A) : M S A :=
  fun s =>
    match body s with
    | (Throw e, s') => handler e s'
    | other => other
    end.

(** [if (c) stmt] without an [else]. *)
Definition when {S} (c : bool) (stmt : M S unit) : M S unit :=
  if c then stmt else ret tt.

Definition modify {S} (f : S -> S) : M S unit := fun s => (Return tt, f s).

Definition gets {S A} (f : S -> A) : M S A := fun s => (Return (f s), s).

(** The value of [data.prop] for a parsed JSON value other than [null].
    Only own members are modelled: the two names the services read,
    [status] and [luckyNumber], are on no built-in prototype, so a value
    that is not an object yields [undefined]. *)
Definition own_prop (data : Json) (prop : string) : Value :=
  match data with
  | JObj members => member prop members
  | _ => None
  end.

(** [data.prop] as an expression: reading a property of [null] throws. *)
Definition get_prop {S} (data : Json) (prop : string) : M S Value :=
  match data with
  | JNull => throw (null_access prop)
  | _ => ret (own_prop data prop)
  end.

(** An outcome that leaves the process running: a normal return, or a
    wait that goes on. *)
Definition calm {A} (o : Outcome A) : Prop :=
  match o with
  | Return _ => True
  | Pending => True
  | Throw _ => False
  | Exit _ => False
  end.

End JS.

Declare Scope js_scope.
Delimit Scope js_scope with js.
Notation "x <- c ;; k" := (JS.bind c (fun x => k))
  (at level 61, c at next level, right associativity) : js_scope.
Notation "c ;; k" := (JS.bind c (fun _ => k))
  (at level 61, right associativity) : js_scope.
Local Open Scope js_scope.

(* ===================================================================== *)
(** * The frontend: apps/lucky-web-app/server.js                          *)
(* ===================================================================== *)

Module Frontend.
Import JS.

(** ** The world as the frontend sees it *)

(** Result of [await res.json()]. *)
Inductive JsonResult : Type :=
| JsonRejects (e : Error)      (* invalid JSON, body timeout, ... *)
| JsonResolves (data : Json)
| JsonNeverSettles.

(** The [Response] object of node-fetch. *)
Record Response : Type := mkResponse { status : Z; json : JsonResult }.

(** [res.ok]: the status is in the range 200-299. *)
Definition ok (r : Response) : bool := (200 <=? status r) && (status r <=? 299).

(** Result of [await fetch(url, opts)]. *)
Inductive FetchResult : Type :=
| Rejects (e : Error)          (* timeout, connection refused, DNS, ... *)
| Resolves (r : Response)
| NeverSettles.

(** The React element tree [LuckyPage] builds. *)
Inductive Element : Type :=
| Tag (tag : string) (props : list (string * string)) (children : list Element)
| Text (s : string)
| Expr (v : Value).            (* a {value} child *)

(** The host of the frontend process: environment variables, the fetch
    library ([timeout] in milliseconds, [None] when the option is not
    passed), React's server renderer, which either returns markup or
    throws, and what binding a port does: [None] when the port is bound,
    the error otherwise (the port is in use, or is no port number). *)
Record Host : Type := mkHost {
  env : string -> option string;
  fetch : string -> option Z -> FetchResult;
  renderToString : Element -> Error + string;
  listen : string -> option Error
}.

(** What the process does that can be observed from outside. *)
Inductive Event : Type :=
| ConsoleLog (line : string)
| ConsoleError (line : string)
| ConsoleErrorObj (e : Error)            (* console.error(err) *)
| Listen (port : string)                 (* app.listen(PORT) *)
| Send (status : Z) (body : string).     (* res.status(status).send(body) *)

Definition Trace : Type := list Event.
Definition Js (A : Type) : Type := M Trace A.

Definition emit (e : Event) : Js unit := modify (fun t => (t ++ [e])%list).

Definition console_log (line : string) : Js unit := emit (ConsoleLog line).
Definition console_error (line : string) : Js unit := emit (ConsoleError line).
Definition console_error_obj (e : Error) : Js unit := emit (ConsoleErrorObj e).
Definition res_send (status : Z) (body : string) : Js unit := emit (Send status body).

(** [await p] for the two kinds of promise the program awaits. *)
Definition await_fetch (p : FetchResult) : Js Response :=
  match p with
  | Rejects e => throw e
  | Resolves r => ret r
  | NeverSettles => never
  end.

Definition await_json (p : JsonResult) : Js Json :=
  match p with
  | JsonRejects e => throw e
  | JsonResolves d => ret d
  | JsonNeverSettles => never
  end.

(** ** component/LuckyPage.jsx *)

Definition LuckyPage (number : Value) : Element :=
  Tag "div" []
    [ Tag "h1" [] [Text "Your Lucky Number"];
      Tag "div" [("className", "number")] [Expr number] ].

(** ** server.js *)

Section Server.
Variable H : Host.

(** [const PORT = process.env.PORT || 4000;] *)
Definition PORT : string := or_default (env H "PORT") "4000".

(** [const LUCKY_API_URL = process.env.LUCKY_API_URL || 'http://lucky-number-app/lucky';] *)
Definition LUCKY_API_URL : string :=
  or_default (env H "LUCKY_API_URL") "http://lucky-number-app/lucky".

(** [s.replace(/pat$/, rep)] for a literal [pat] and a replacement without
    [$] patterns: the leftmost position at which the rest of the string is
    exactly [pat] is where the match is, and there is at most one. *)
Fixpoint replace_at_end (pat rep s : string) : string :=
  if String.eqb s pat then rep
  else match s with
       | EmptyString => EmptyString
       | String c rest => String c (replace_at_end pat rep rest)
       end.

(** [const PING_URL = (LUCKY_API_URL.replace(/\/lucky$/, '/ping'));] *)
Definition PING_URL : string := replace_at_end "/lucky" "/ping" LUCKY_API_URL.

(** [async function checkLuckyNumberApp()] *)
Definition checkLuckyNumberApp : Js bool :=
  try_catch
    (res <- await_fetch (fetch H PING_URL (Some 2000)) ;;
     when (negb (ok res)) (throw (new_Error "Ping failed")) ;;
     data <- await_json (json res) ;;
     st <- get_prop data "status" ;;
     when (negb (strict_eq_str st "ok"))
          (throw (new_Error "Ping returned unexpected status")) ;;
     ret true)
    (fun err =>
       console_error
         (spaced "Could not reach lucky-number-app /ping endpoint:" (message err)) ;;
       ret false).

(** The page around the rendered component ([res.send] of the template
    literal). *)
Definition page (html : string) : string :=
  "
      <!DOCTYPE html>
      <html>
        <head>
          <title>Your Lucky Number</title>
          <style>
            body { font-family: sans-serif; text-align: center; margin-top: 3em; }
            .number { font-size: 3em; color: #2b7a78; }
          </style>
        </head>
        <body>
          " ++ html ++ "
        </body>
      </html>
    ".

(** [ReactDOMServer.renderToString(el)] as a statement: a throwing
    renderer throws. *)
Definition render (el : Element) : Js string :=
  match renderToString H el with
  | inl e => throw e
  | inr html => ret html
  end.

(** [app.get('/', async (req, res) => { ... })] *)
Definition handleRoot : Js unit :=
  try_catch
    (response <- await_fetch (fetch H LUCKY_API_URL None) ;;
     data <- await_json (json response) ;;
     number <- get_prop data "luckyNumber" ;;
     html <- render (LuckyPage number) ;;
     res_send 200 (page html))
    (fun err =>
       console_error_obj err ;;
       res_send 500 "Failed to fetch lucky number").

(** [app.listen(PORT, callback)].  The call has no error handling around
    it: when the port cannot be bound the callback does not run and the
    error is not caught by anything, which ends the process. *)
Definition app_listen (port : string) (callback : Js unit) : Js unit :=
  match listen H port with
  | None => emit (Listen port) ;; callback
  | Some e => throw e
  end.

(** [checkLuckyNumberApp().then((ok) => { ... })]: the start of the
    process.  There is no [else] and no [return] after [process.exit(1)];
    the call itself ends the process. *)
Definition main : Js unit :=
  ok <- checkLuckyNumberApp ;;
  when (negb ok)
       (console_error "Startup aborted: lucky-number-app is not reachable." ;;
        process_exit 1) ;;
  app_listen PORT
    (console_log ("Lucky Web App running on port " ++ PORT)).

(** The listener is bound once a [Listen] event has happened. *)
Definition is_listen (e : Event) : bool :=
  match e with Listen _ => true | _ => false end.

Definition listening (t : Trace) : bool := existsb is_listen t.

(** What a client of the frontend port gets for [GET /]. *)
Inductive Served : Type :=
| ConnectionRefused
| Handled (r : Outcome unit * Trace).

(** A request reaches the forwarder only through a bound listener. *)
Definition request (t : Trace) : Served :=
  if listening t then Handled (handleRoot t) else ConnectionRefused.

End Server.

(** The gate's decision, read off the result of [checkLuckyNumberApp]. *)
Inductive GateDecision : Type := Proceed | Abort.

Definition decision (r : Outcome bool * Trace) : option GateDecision :=
  match fst r with
  | Return true => Some Proceed
  | Return false => Some Abort
  | _ => None
  end.

(** The body carries the status [ok]: it is an object whose [status]
    member is the string [ok]. *)
Definition status_is_ok (data : Json) : Prop :=
  exists members, data = JObj members /\ member "status" members = Some (JStr "ok").

(** Text of the lines written to the console. *)
Definition console_line (e : Event) : option string :=
  match e with
  | ConsoleLog l => Some l
  | ConsoleError l => Some l
  | ConsoleErrorObj err => Some (name err ++ ": " ++ message err)
  | _ => None
  end.

(** [needle] occurs somewhere in [hay]. *)
Fixpoint occurs_in (needle hay : string) : bool :=
  String.prefix needle hay ||
  match hay with
  | EmptyString => false
  | String _ rest => occurs_in needle rest
  end.

Definition mentions (needle : string) (e : Event) : bool :=
  match console_line e with
  | Some l => occurs_in needle l
  | None => false
  end.

(** The specification's wording for the probe address: the trailing path
    segment of the URL, that is everything from its last slash on, replaced
    by [/ping] (a URL without a slash has no such segment and is left as it
    is). *)
Fixpoint has_slash (s : string) : bool :=
  match s with
  | EmptyString => false
  | String c rest => Ascii.eqb c "/"%char || has_slash rest
  end.

Fixpoint before_last_slash (s : string) : string :=
  match s with
  | EmptyString => EmptyString
  | String c rest =>
      if has_slash rest then String c (before_last_slash rest)
      else if Ascii.eqb c "/"%char then EmptyString
      else s
  end.

Definition replace_trailing_segment (s : string) : string :=
  if has_slash s then before_last_slash s ++ "/ping" else s.

(** [s] ends with [pat]. *)
Fixpoint ends_with (pat s : string) : bool :=
  String.eqb s pat ||
  match s with
  | EmptyString => false
  | String _ rest => ends_with pat rest
  end.

(** ** Sample hosts *)

(** A renderer that returns fixed markup, and one that always throws. *)
Definition fixed_markup : Element -> Error + string :=
  fun _ => inr "<div><h1>Your Lucky Number</h1></div>".

Definition broken_renderer : Element -> Error + string :=
  fun _ => inl (new_Error "Objects are not valid as a React child").

(** A host whose backend answers every request in the same way. *)
Definition host_with (url : option string) (answer : FetchResult)
  (renderer : Element -> Error + string) : Host :=
  {| env := fun v => if String.eqb v "LUCKY_API_URL" then url else None;
     fetch := fun _ _ => answer;
     renderToString := renderer;
     listen := fun _ => None |}.

(** A host whose backend answers the startup probe (the one call made
    with a timeout) with [200 {status: ok}] and every later call in the
    same way [later]. *)
Definition host_after_start (later : FetchResult)
  (renderer : Element -> Error + string) : Host :=
  {| env := fun _ => None;
     fetch := fun _ timeout =>
       match timeout with
       | Some _ =>
           Resolves {| status := 200;
                       json := JsonResolves (JObj [("status", JStr "ok")]) |}
       | None => later
       end;
     renderToString := renderer;
     listen := fun _ => None |}.

Definition answer (st : Z) (data : Json) : FetchResult :=
  Resolves {| status := st; json := JsonResolves data |}.

Definition ok_body : Json := JObj [("status", JStr "ok")].

End Frontend.

(* ===================================================================== *)
(** * The backend: the lucky-number service                               *)
(* ===================================================================== *)

Module Backend.
Import JS.

(** ** The world as the backend sees it *)

(** Time is counted in ticks, [res] of them to the millisecond.  A call
    of the system clock takes [pace t] ticks when it starts at tick [t];
    [random k] is the [k]-th value handed out by [Math.random()]; [fuel]
    bounds the number of turns one busy loop is followed for. *)
Record Runtime : Type := mkRuntime {
  res : Z;
  pace : Z -> Z;
  random : nat -> Q;
  env : string -> option string;
  fuel : nat
}.

(** A [GET] request: when it reached the port, and its path. *)
Record Request : Type := mkRequest { arrived : Z; path : string }.

Inductive Body : Type :=
| BJson (j : Json)        (* res.json(j) *)
| BText (s : string).     (* a text page *)

Inductive Event : Type :=
| ConsoleLog (line : string)
| Listen (port : string)
| Reply (req : Request) (status : Z) (body : Body)
| Refused (req : Request).       (* nobody listens: the connection fails *)

(** Callbacks that can sit in the timer queue. *)
Inductive Callback : Type := StartupElapsed.

(** The process: the current tick, the pending timer with its deadline,
    since when the port is bound, the ticks at which a random number was
    drawn, and everything that happened so far, each event with the tick
    at which it happened. *)
Record World : Type := mkWorld {
  now : Z;
  timer : option (Z * Callback);
  listening : option Z;
  draws : list Z;
  trace : list (Z * Event)
}.

Definition Js (A : Type) : Type := M World A.

Definition emit (e : Event) : Js unit :=
  modify (fun w =>
    {| now := now w; timer := timer w; listening := listening w;
       draws := draws w; trace := (trace w ++ [(now w, e)])%list |}).

Definition console_log (line : string) : Js unit := emit (ConsoleLog line).

(** [res.json(j)] on the response object of [req]. *)
Definition res_json (req : Request) (j : Json) : Js unit :=
  emit (Reply req 200 (BJson j)).

(** ** Numbers

    A JavaScript number is an IEEE 754 binary64 value.  The finite ones
    are rationals, and an arithmetic operation gives the exact result
    rounded to the nearest of them, a tie going to the one whose
    significand is even.  Overflow (from [2 ^ 1024] on) is left out: no
    number of the service comes near it. *)

(** The binade of a positive rational: the [k] with
    [2 ^ k <= q < 2 ^ (k + 1)]. *)
Definition ilog2 (q : Q) : Z :=
  let k := Z.log2 (Qnum q) - Z.log2 (Zpos (Qden q)) in
  if Qle_bool (2 ^ k) q then k else k - 1.

(** The nearest integer, a tie going to the even one. *)
Definition rne (q : Q) : Z :=
  let f := Qfloor q in
  match (q - inject_Z f ?= 1 # 2)%Q with
  | Lt => f
  | Gt => f + 1
  | Eq => if Z.even f then f else f + 1
  end.

(** The exponent of the unit in the last place at [q]: 53 significant
    bits, and the grid of the subnormal numbers, [2 ^ -1074], at the
    bottom. *)
Definition ulp_exp (q : Q) : Z := Z.max (ilog2 q - 52) (-1074).

(** The double nearest to a positive rational. *)
Definition round_pos (q : Q) : Q :=
  inject_Z (rne (q / 2 ^ ulp_exp q)) * 2 ^ ulp_exp q.

(** The double nearest to a rational. *)
Definition round64 (q : Q) : Q :=
  match Qnum q with
  | Z0 => 0
  | Zpos _ => round_pos q
  | Zneg _ => - round_pos (- q)
  end.

(** The rationals that are doubles. *)
Definition is_double (q : Q) : bool := Qeq_bool (round64 q) q.

Section Server.
Variable R : Runtime.

(** [Date.now()]: the millisecond the clock shows; the call itself takes
    time. *)
Definition Date_now : Js Z :=
  fun w =>
    (Return (now w / res R),
     {| now := now w + pace R (now w); timer := timer w;
        listening := listening w; draws := draws w; trace := trace w |}).

(** [Math.random()] *)
Definition Math_random : Js Q :=
  fun w =>
    (Return (random R (length (draws w))),
     {| now := now w; timer := timer w; listening := listening w;
        draws := (draws w ++ [now w])%list; trace := trace w |}).

(** [setTimeout(cb, ms)] *)
Definition setTimeout (cb : Callback) (ms : Z) : Js unit :=
  modify (fun w =>
    {| now := now w; timer := Some (now w + ms * res R, cb);
       listening := listening w; draws := draws w; trace := trace w |}).

(** [const PORT = process.env.PORT || 3001;] *)
Definition PORT : string := or_default (env R "PORT") "3001".

(** [while (Date.now() - start < ms) { }] *)
Fixpoint busyLoop (n : nat) (start ms : Z) : Js unit :=
  match n with
  | O => never
  | S n' =>
      t <- Date_now ;;
      if t - start <? ms then busyLoop n' start ms else ret tt
  end.

(** [function busyWait(ms)] *)
Definition busyWait (ms : Z) : Js unit :=
  start <- Date_now ;;
  busyLoop (fuel R) start ms.

(** [Math.floor(10 + u * 90)]: the product is rounded to a double, then
    the sum is; [Math.floor] of a double is exact. *)
Definition lucky_of (u : Q) : Z := Qfloor (round64 (10 + round64 (u * 90))).

(** [app.get('/lucky', async (req, res) => { ... })] *)
Definition lucky (req : Request) : Js unit :=
  let podName := show_env (env R "POD_NAME") in
  console_log (spaced "Running on pod:" podName) ;;
  console_log ("Received request for lucky number in pod " ++ podName ++ "...") ;;
  busyWait 5000 ;;
  u <- Math_random ;;
  let luckyNumber := lucky_of u in
  console_log ("Generated lucky number: " ++ show_Z luckyNumber
               ++ " in pod " ++ podName) ;;
  res_json req (JObj [("luckyNumber", JNum (inject_Z luckyNumber))]).

(** The three console lines of the [/lucky] handler, for reference. *)
Definition line_pod : string :=
  spaced "Running on pod:" (show_env (env R "POD_NAME")).

Definition line_received : string :=
  "Received request for lucky number in pod " ++ show_env (env R "POD_NAME") ++ "...".

Definition line_generated (n : Z) : string :=
  "Generated lucky number: " ++ show_Z n ++ " in pod " ++ show_env (env R "POD_NAME").

(** [app.get('/ping', (req, res) => { res.json({ status: 'ok' }); })] *)
Definition ping (req : Request) : Js unit :=
  res_json req (JObj [("status", JStr "ok")]).

(** The routes registered on [app], in order. *)
Definition routes : list (string * (Request -> Js unit)) :=
  [ ("/lucky", lucky); ("/ping", ping) ].

Fixpoint find_route (p : string) (rs : list (string * (Request -> Js unit)))
  : option (Request -> Js unit) :=
  match rs with
  | [] => None
  | (pat, h) :: rest => if String.eqb pat p then Some h else find_route p rest
  end.

(** Express hands the request to the first matching route; when none
    matches its final handler answers 404.  Paths are compared as they
    are written, and the 404 page is given by its text. *)
Definition dispatch (req : Request) : Js unit :=
  match find_route (path req) routes with
  | Some handler => handler req
  | None => emit (Reply req 404 (BText ("Cannot GET " ++ path req)))
  end.

(** [app.listen(PORT, callback)], on a port that can be bound. *)
Definition app_listen (port : string) (callback : Js unit) : Js unit :=
  emit (Listen port) ;;
  modify (fun w =>
    {| now := now w; timer := timer w; listening := Some (now w);
       draws := draws w; trace := trace w |}) ;;
  callback.

(** [const startupDelay = async () => { ... }], up to its [await]: the
    first line is logged and the timer is armed; the function goes on in
    [startupDelay_resumed] when the timer fires. *)
Definition startupDelay : Js unit :=
  console_log "App is starting... please wait" ;;
  setTimeout StartupElapsed 5000.

Definition startupDelay_resumed : Js unit :=
  console_log "App2 is ready!".

(** The callback of [startupDelay().then(() => { ... })]. *)
Definition on_started : Js unit :=
  app_listen PORT (console_log ("Server is running on port " ++ PORT)).

(** What runs when a timer fires. *)
Definition run_callback (cb : Callback) : Js unit :=
  match cb with
  | StartupElapsed => startupDelay_resumed ;; on_started
  end.

(** The script, start to end: [startupDelay().then(...)] arms the timer
    and leaves the rest to the event loop. *)
Definition main : Js unit := startupDelay.

(** ** The event loop *)

(** The loop runs a timer callback once its deadline has passed and the
    loop is free; [horizon] is the tick up to which nothing else is to be
    done. *)
Definition fire_due (horizon : Z) : Js unit :=
  fun w =>
    match timer w with
    | Some (deadline, cb) =>
        if deadline <=? Z.max horizon (now w) then
          run_callback cb
            {| now := Z.max deadline (now w); timer := None;
               listening := listening w; draws := draws w; trace := trace w |}
        else (Return tt, w)
    | None => (Return tt, w)
    end.

(** The loop sleeps until tick [t], if that is still ahead. *)
Definition idle_until (t : Z) : Js unit :=
  modify (fun w =>
    {| now := Z.max t (now w); timer := timer w; listening := listening w;
       draws := draws w; trace := trace w |}).

(** A connection is accepted when the port was bound by the time it
    arrived; it then waits in the accept queue until the loop is free. *)
Definition accepted (w : World) (req : Request) : bool :=
  match listening w with
  | Some since => since <=? arrived req
  | None => false
  end.

(** One request, taken up when the loop is free: timers that are due run
    first, then the handler runs to completion. *)
Definition deliver (req : Request) : Js unit :=
  fire_due (arrived req) ;;
  idle_until (arrived req) ;;
  ok <- gets (fun w => accepted w req) ;;
  if ok then dispatch req else emit (Refused req).

(** Requests are taken up in the order of the list. *)
Fixpoint serve (reqs : list Request) : Js unit :=
  match reqs with
  | [] => ret tt
  | req :: rest => deliver req ;; serve rest
  end.

(** The process is started at tick [t0]. *)
Definition fresh (t0 : Z) : World :=
  {| now := t0; timer := None; listening := None; draws := []; trace := [] |}.

Definition boot (t0 : Z) : Outcome unit * World := main (fresh t0).

(** The millisecond clock of a state. *)
Definition clock (w : World) : Z := now w / res R.

End Server.

(** The states a process started at [t0] can be in between two requests. *)
Inductive reachable (R : Runtime) (t0 : Z) : World -> Prop :=
| reach_boot : forall w,
    boot R t0 = (Return tt, w) -> reachable R t0 w
| reach_deliver : forall w req w',
    reachable R t0 w ->
    deliver R req w = (Return tt, w') ->
    reachable R t0 w'.

(** The answers given so far: replies and refused connections. *)
Definition is_answer (e : Z * Event) : bool :=
  match snd e with
  | Reply _ _ _ => true
  | Refused _ => true
  | _ => false
  end.

Definition answers (w : World) : list (Z * Event) := filter is_answer (trace w).

(** The replies sent so far: at which tick, to which request. *)
Fixpoint served_in (t : list (Z * Event)) : list (Z * Request) :=
  match t with
  | [] => []
  | (tick, Reply req _ _) :: rest => (tick, req) :: served_in rest
  | _ :: rest => served_in rest
  end.

Definition served (w : World) : list (Z * Request) := served_in (trace w).

(** Between two requests a process started at [t0] is in one of two
    conditions: the startup timer is armed for [t0 + 5000 ms], nothing
    listens and that tick has not come; or the timer has run and the port
    is bound since exactly that tick. *)
Definition startup_invariant (R : Runtime) (t0 : Z) (w : World) : Prop :=
  (timer w = Some (t0 + 5000 * res R, StartupElapsed) /\
   listening w = None /\ now w < t0 + 5000 * res R) \/
  (timer w = None /\ listening w = Some (t0 + 5000 * res R)).

(** The state of the service as the specification names it, at tick [t]:
    [Ready] once the port is bound. *)
Inductive ServiceState : Type := Starting | Ready.

Definition state_at (w : World) (t : Z) : ServiceState :=
  match listening w with
  | Some since => if since <=? t then Ready else Starting
  | None => Starting
  end.

(** Reply ticks [ts] of requests handled one after the other from tick [s]
    on: each reply comes at least 5000 ms on the clock, and at most
    [5000 * res + 2 * P] ticks, after the one before it. *)
Fixpoint paced (R : Runtime) (P : Z) (s : Z) (ts : list Z) : Prop :=
  match ts with
  | [] => True
  | t :: rest =>
      s / res R + 5000 <= t / res R /\
      t <= s + 5000 * res R + 2 * P /\
      paced R P t rest
  end.

(** The body of a [/lucky] reply carrying [n]. *)
Definition lucky_body (n : Z) : Body :=
  BJson (JObj [("luckyNumber", JNum (inject_Z n))]).

(** The body of a [/ping] reply. *)
Definition ping_body : Body := BJson (JObj [("status", JStr "ok")]).

(** The runtime [R] with another environment. *)
Definition with_env (R : Runtime) (e : string -> option string) : Runtime :=
  {| res := res R; pace := pace R; random := random R; env := e; fuel := fuel R |}.

(** The requests that were answered so far (with a reply or with a
    refusal), in the order of the answers. *)
Fixpoint answered_in (t : list (Z * Event)) : list Request :=
  match t with
  | [] => []
  | (_, Reply req _ _) :: rest => req :: answered_in rest
  | (_, Refused req) :: rest => req :: answered_in rest
  | _ :: rest => answered_in rest
  end.

Definition answered (w : World) : list Request := answered_in (trace w).

(** The [app.listen] calls so far. *)
Definition is_listen (e : Z * Event) : bool :=
  match snd e with
  | Listen _ => true
  | _ => false
  end.

Definition listens (w : World) : list (Z * Event) := filter is_listen (trace w).

(** A request that reaches the [/lucky] handler of a port bound since tick
    [since]. *)
Definition reaches_lucky (since : Z) (req : Request) : bool :=
  (since <=? arrived req) && String.eqb "/lucky" (path req).

(** ** A sample runtime *)

(** One tick per millisecond, a clock call that takes a full second, and
    a random source stuck at one half. *)
Definition sample : Runtime :=
  {| res := 1; pace := fun _ => 1000; random := fun _ => (1 # 2)%Q;
     env := fun _ => None; fuel := Z.to_nat 5001 |}.


(** The sample process after its start at tick 0 and a first [/ping] at
    tick 5000. *)
Definition sample_ready : World :=
  snd (serve sample [ {| arrived := 5000; path := "/ping" |} ] (snd (boot sample 0))).

End Backend.

(* ===================================================================== *)
(** * Properties of the frontend                                          *)
(* ===================================================================== *)

Section FrontendFacts.
Import JS Frontend.

(** Run the straight-line part of a handler. *)
Ltac run_js :=
  cbn;
  unfold res_send, console_error_obj, console_error, console_log, emit,
    modify, bind, ret, throw, never;
  cbn;
  rewrite <- ?app_assoc; cbn.

(** ** The probe address *)

Lemma length_app (a b : string) :
  String.length (a ++ b) = (String.length a + String.length b)%nat.
Proof. induction a as [|c a IH]; cbn; [reflexivity | now rewrite IH]. Qed.

Lemma eqb_longer (c : ascii) (b pat : string) :
  String.eqb (String c (b ++ pat)) pat = false.
Proof.
  apply String.eqb_neq. intro E.
  apply (f_equal String.length) in E. cbn in E.
  rewrite length_app in E. lia.
Qed.

Lemma replace_at_end_suffix (pat rep base : string) :
  replace_at_end pat rep (base ++ pat) = base ++ rep.
Proof.
  induction base as [|c b IH].
  - cbn. destruct pat; cbn.
    + reflexivity.
    + rewrite Ascii.eqb_refl, String.eqb_refl. reflexivity.
  - cbn [String.append]. cbn [replace_at_end].
    rewrite eqb_longer. now rewrite IH.
Qed.

Lemma replace_at_end_other (pat rep s : string) :
  ends_with pat s = false -> replace_at_end pat rep s = s.
Proof.
  induction s as [|c r IH]; intros E.
  - cbn in *. destruct pat; [discriminate | reflexivity].
  - cbn [ends_with] in E. apply orb_false_iff in E. destruct E as [E1 E2].
    cbn [replace_at_end]. rewrite E1. now rewrite IH.
Qed.

Lemma ends_with_suffix (pat s : string) :
  ends_with pat s = true <-> exists base, s = base ++ pat.
Proof.
  split.
  - induction s as [|c r IH]; cbn [ends_with]; intros E.
    + rewrite orb_false_r in E. apply String.eqb_eq in E. now exists "".
    + apply orb_true_iff in E. destruct E as [E|E].
      * apply String.eqb_eq in E. now exists "".
      * destruct (IH E) as [b ->]. now exists (String c b).
  - intros [base ->]. induction base as [|c b IH].
    + cbn [String.append]. destruct pat; cbn; rewrite ?Ascii.eqb_refl, ?String.eqb_refl; reflexivity.
    + cbn [String.append ends_with]. rewrite IH. apply orb_true_r.
Qed.

Lemma has_slash_suffix (base : string) : has_slash (base ++ "/lucky") = true.
Proof.
  induction base as [|c b IH]; [reflexivity|].
  cbn [String.append has_slash]. rewrite IH. apply orb_true_r.
Qed.

Lemma before_last_slash_suffix (base : string) :
  before_last_slash (base ++ "/lucky") = base.
Proof.
  induction base as [|c b IH]; [reflexivity|].
  cbn [String.append before_last_slash].
  now rewrite has_slash_suffix, IH.
Qed.

(** C6, as the code has it: when [LUCKY_API_URL] ends with [/lucky], the
    probe address is that URL with the final [/lucky] replaced by [/ping]
    (which is then also the URL with its trailing path segment replaced
    by [/ping]); for every other value the probe address is
    [LUCKY_API_URL] itself, unchanged. *)
Theorem C6_probe_url (H : Host) :
  (forall base, LUCKY_API_URL H = base ++ "/lucky" ->
     PING_URL H = base ++ "/ping" /\
     PING_URL H = replace_trailing_segment (LUCKY_API_URL H)) /\
  (ends_with "/lucky" (LUCKY_API_URL H) = false ->
     PING_URL H = LUCKY_API_URL H).
Proof.
  unfold PING_URL. split.
  - intros base ->. rewrite replace_at_end_suffix. split; [reflexivity|].
    unfold replace_trailing_segment.
    now rewrite has_slash_suffix, before_last_slash_suffix.
  - apply replace_at_end_other.
Qed.

Lemma C6_probe_url_witness :
  PING_URL (host_with None NeverSettles fixed_markup) = "http://lucky-number-app/ping" /\
  PING_URL (host_with (Some "http://localhost:3001/lucky/") NeverSettles fixed_markup)
  = "http://localhost:3001/lucky/".
Proof.
  split.
  - apply (proj1 (C6_probe_url (host_with None NeverSettles fixed_markup))
             "http://lucky-number-app").
    reflexivity.
  - apply (proj2 (C6_probe_url
             (host_with (Some "http://localhost:3001/lucky/") NeverSettles fixed_markup))).
    reflexivity.
Defined.

(** C6 as stated fails: a URL whose last segment is not [lucky] keeps
    that segment in the probe address, which then is not the URL with its
    trailing segment replaced by [/ping]. *)
Lemma C6_counterexample :
  LUCKY_API_URL
    (host_with (Some "http://localhost:3001/api/number") NeverSettles fixed_markup)
  = "http://localhost:3001/api/number" /\
  PING_URL
    (host_with (Some "http://localhost:3001/api/number") NeverSettles fixed_markup)
  = "http://localhost:3001/api/number" /\
  replace_trailing_segment "http://localhost:3001/api/number"
  = "http://localhost:3001/api/ping".
Proof. repeat split. Qed.

(** ** The dependency gate *)

Lemma strict_eq_str_true (v : Value) (lit : string) :
  strict_eq_str v lit = true <-> v = Some (JStr lit).
Proof.
  destruct v as [j|]; [destruct j|]; cbn;
    try (split; [discriminate | intros [=]]).
  rewrite String.eqb_eq. split; [now intros -> | now intros [= ->]].
Qed.

(** C1: the decision table of the gate.  The probe is one fetch of
    [PING_URL] with a timeout of 2000 ms; a rejected fetch (timeout,
    refused or unreachable connection), a status outside 200-299, a body
    that is not JSON and a body whose [status] is not the string [ok] all
    give [Abort]; a success status with [status] equal to [ok] gives
    [Proceed]; and the gate fails to decide only when the probe itself
    never settles. *)
Theorem C1_gate_decision_table (H : Host) (t : Trace) :
  let probe := fetch H (PING_URL H) (Some 2000) in
  let d := decision (checkLuckyNumberApp H t) in
  (forall e, probe = Rejects e -> d = Some Abort) /\
  (forall r, probe = Resolves r -> ok r = false -> d = Some Abort) /\
  (forall r e, probe = Resolves r -> ok r = true ->
     json r = JsonRejects e -> d = Some Abort) /\
  (forall r data, probe = Resolves r -> ok r = true ->
     json r = JsonResolves data -> ~ status_is_ok data -> d = Some Abort) /\
  (forall r data, probe = Resolves r -> ok r = true ->
     json r = JsonResolves data -> status_is_ok data -> d = Some Proceed) /\
  (d = None <->
   probe = NeverSettles \/
   exists r, probe = Resolves r /\ ok r = true /\ json r = JsonNeverSettles).
Proof.
  cbv zeta. unfold checkLuckyNumberApp, try_catch, bind, decision.
  split; [|split; [|split; [|split; [|split]]]].
  - intros e ->. reflexivity.
  - intros r -> Hok. cbn. rewrite Hok. reflexivity.
  - intros r e -> Hok Hj. cbn. rewrite Hok, Hj. reflexivity.
  - intros r data -> Hok Hj Hno. cbn. rewrite Hok, Hj. cbn.
    destruct data as [| b | q | s | l | ms]; try reflexivity.
    cbn. destruct (strict_eq_str (member "status" ms) "ok") eqn:E; [|reflexivity].
    exfalso. apply Hno. exists ms. split; [reflexivity|].
    now apply strict_eq_str_true.
  - intros r data -> Hok Hj (ms & -> & Hst). cbn. rewrite Hok, Hj. cbn.
    rewrite Hst. reflexivity.
  - destruct (fetch H (PING_URL H) (Some 2000)) as [e | r |]; cbn.
    + split; [discriminate | intros [F | (r & F & _)]; discriminate F].
    + destruct (ok r) eqn:Hok; cbn.
      * destruct (json r) as [e | data |] eqn:Hj; cbn.
        -- split; [discriminate |].
           intros [F | (r' & [= <-] & _ & F)]; [discriminate F | congruence].
        -- split.
           ++ destruct data as [| b | q | s | l | ms]; cbn; try discriminate.
              destruct (strict_eq_str (member "status" ms) "ok"); discriminate.
           ++ intros [F | (r' & [= <-] & _ & F)]; [discriminate F | congruence].
        -- split; [|reflexivity]. intros _. right. exists r. repeat split; assumption.
      * split; [discriminate |].
        intros [F | (r' & [= <-] & F & _)]; [discriminate F | congruence].
    + split; [|reflexivity]. intros _. now left.
Qed.

Lemma C1_gate_decision_table_witness :
  decision (checkLuckyNumberApp
              (host_with None (Rejects (new_Error "network timeout")) fixed_markup) [])
  = Some Abort /\
  decision (checkLuckyNumberApp
              (host_with None (answer 503 ok_body) fixed_markup) []) = Some Abort /\
  decision (checkLuckyNumberApp
              (host_with None
                 (Resolves {| status := 200;
                              json := JsonRejects (new_Error "invalid json") |})
                 fixed_markup) []) = Some Abort /\
  decision (checkLuckyNumberApp
              (host_with None (answer 200 (JObj [("status", JStr "starting")]))
                 fixed_markup) []) = Some Abort /\
  decision (checkLuckyNumberApp
              (host_with None (answer 200 ok_body) fixed_markup) []) = Some Proceed.
Proof.
  split; [|split; [|split; [|split]]].
  - apply (proj1 (C1_gate_decision_table
                    (host_with None (Rejects (new_Error "network timeout")) fixed_markup) [])
             (new_Error "network timeout")).
    reflexivity.
  - apply (proj1 (proj2 (C1_gate_decision_table
                    (host_with None (answer 503 ok_body) fixed_markup) []))
             {| status := 503; json := JsonResolves ok_body |});
      reflexivity.
  - apply (proj1 (proj2 (proj2 (C1_gate_decision_table
                    (host_with None
                       (Resolves {| status := 200;
                                    json := JsonRejects (new_Error "invalid json") |})
                       fixed_markup) [])))
             {| status := 200; json := JsonRejects (new_Error "invalid json") |}
             (new_Error "invalid json"));
      reflexivity.
  - apply (proj1 (proj2 (proj2 (proj2 (C1_gate_decision_table
                    (host_with None (answer 200 (JObj [("status", JStr "starting")]))
                       fixed_markup) []))))
             {| status := 200;
                json := JsonResolves (JObj [("status", JStr "starting")]) |}
             (JObj [("status", JStr "starting")]));
      try reflexivity.
    intros (ms & E & Hst). injection E as <-. discriminate Hst.
  - apply (proj1 (proj2 (proj2 (proj2 (proj2 (C1_gate_decision_table
                    (host_with None (answer 200 ok_body) fixed_markup) [])))))
             {| status := 200; json := JsonResolves ok_body |} ok_body);
      try reflexivity.
    exists [("status", JStr "ok")]. split; reflexivity.
Defined.

(** ** Abort never binds the listener *)

(** The probe ends in one of three ways: it returns [true] and has logged
    nothing, it returns [false] after one [console.error] line, or one of
    its promises never settles. *)
Lemma check_cases (H : Host) (t : Trace) :
  checkLuckyNumberApp H t = (Return true, t) \/
  (exists err,
      checkLuckyNumberApp H t =
      (Return false,
       (t ++ [ConsoleError
                (spaced "Could not reach lucky-number-app /ping endpoint:"
                        (message err))])%list)) \/
  checkLuckyNumberApp H t = (Pending, t).
Proof.
  unfold checkLuckyNumberApp, try_catch, bind.
  destruct (fetch H (PING_URL H) (Some 2000)) as [e | r |]; cbn.
  - right; left. now exists e.
  - destruct (ok r); cbn.
    + destruct (json r) as [e | data |]; cbn.
      * right; left. now exists e.
      * destruct data as [| b | q | s | l | ms]; cbn;
          try (right; left;
               now exists (new_Error "Ping returned unexpected status")).
        -- right; left. now exists (null_access "status").
        -- destruct (strict_eq_str (member "status" ms) "ok"); cbn.
           ++ now left.
           ++ right; left.
              now exists (new_Error "Ping returned unexpected status").
      * now right; right.
    + right; left. now exists (new_Error "Ping failed").
  - now right; right.
Qed.

(** What the probe does for each outcome of its fetch: the line it logs
    carries the message of the error that was caught, which is the error
    of the rejected promise, or the message of the [Error] that the
    function itself throws. *)
Lemma check_table (H : Host) (t : Trace) :
  let probe := fetch H (PING_URL H) (Some 2000) in
  let failed msg :=
    checkLuckyNumberApp H t =
    (Return false,
     (t ++ [ConsoleError
              (spaced "Could not reach lucky-number-app /ping endpoint:" msg)])%list) in
  (forall e, probe = Rejects e -> failed (message e)) /\
  (forall r, probe = Resolves r -> ok r = false -> failed "Ping failed") /\
  (forall r e, probe = Resolves r -> ok r = true -> json r = JsonRejects e ->
     failed (message e)) /\
  (forall r, probe = Resolves r -> ok r = true -> json r = JsonResolves JNull ->
     failed (message (null_access "status"))) /\
  (forall r data, probe = Resolves r -> ok r = true -> json r = JsonResolves data ->
     data <> JNull -> ~ status_is_ok data ->
     failed "Ping returned unexpected status") /\
  (forall r data, probe = Resolves r -> ok r = true -> json r = JsonResolves data ->
     status_is_ok data -> checkLuckyNumberApp H t = (Return true, t)) /\
  (probe = NeverSettles \/
   (exists r, probe = Resolves r /\ ok r = true /\ json r = JsonNeverSettles) ->
   checkLuckyNumberApp H t = (Pending, t)).
Proof.
  cbv zeta. unfold checkLuckyNumberApp, try_catch, bind.
  split; [|split; [|split; [|split; [|split; [|split]]]]].
  - intros e ->. reflexivity.
  - intros r -> Hok. cbn. rewrite Hok. reflexivity.
  - intros r e -> Hok Hj. cbn. rewrite Hok, Hj. reflexivity.
  - intros r -> Hok Hj. cbn. rewrite Hok, Hj. reflexivity.
  - intros r data -> Hok Hj Hnn Hno. cbn. rewrite Hok, Hj. cbn.
    destruct data as [| b | q | s | l | ms]; try reflexivity; [congruence|].
    cbn. destruct (strict_eq_str (member "status" ms) "ok") eqn:E; [|reflexivity].
    exfalso. apply Hno. exists ms. split; [reflexivity|].
    now apply strict_eq_str_true.
  - intros r data -> Hok Hj (ms & -> & Hst). cbn. rewrite Hok, Hj. cbn.
    rewrite Hst. reflexivity.
  - intros [-> | (r & -> & Hok & Hj)]; cbn; [reflexivity|].
    rewrite Hok, Hj. reflexivity.
Qed.

(** C2, as the code has it: when the gate decides [Abort], the process
    has written exactly two lines to the error console (the fixed text
    [Could not reach lucky-number-app /ping endpoint:] followed by the
    message of the failure, and the fixed text [Startup aborted:
    lucky-number-app is not reachable.]), it ends with exit code 1, no
    [app.listen] has happened, and a request to its port is refused.  The
    message of the failure is that of the error the fetch or the body was
    rejected with, [Ping failed] for a status outside 200-299, the
    [TypeError]'s message for a [null] body, and [Ping returned unexpected
    status] for any other body. *)
Theorem C2_abort_exits_unbound (H : Host) :
  decision (checkLuckyNumberApp H []) = Some Abort ->
  exists msg,
    main H [] =
      (Exit 1,
       [ConsoleError (spaced "Could not reach lucky-number-app /ping endpoint:" msg);
        ConsoleError "Startup aborted: lucky-number-app is not reachable."]) /\
    (forall port, ~ In (Listen port) (snd (main H []))) /\
    request H (snd (main H [])) = ConnectionRefused /\
    (forall e, fetch H (PING_URL H) (Some 2000) = Rejects e -> msg = message e) /\
    (forall r, fetch H (PING_URL H) (Some 2000) = Resolves r -> ok r = false ->
       msg = "Ping failed") /\
    (forall r e, fetch H (PING_URL H) (Some 2000) = Resolves r -> ok r = true ->
       json r = JsonRejects e -> msg = message e) /\
    (forall r, fetch H (PING_URL H) (Some 2000) = Resolves r -> ok r = true ->
       json r = JsonResolves JNull -> msg = message (null_access "status")) /\
    (forall r data, fetch H (PING_URL H) (Some 2000) = Resolves r -> ok r = true ->
       json r = JsonResolves data -> data <> JNull ->
       msg = "Ping returned unexpected status").
Proof.
  intros Hd.
  assert (Hmain : forall msg,
    checkLuckyNumberApp H [] =
    (Return false,
     [ConsoleError (spaced "Could not reach lucky-number-app /ping endpoint:" msg)]) ->
    main H [] =
      (Exit 1,
       [ConsoleError (spaced "Could not reach lucky-number-app /ping endpoint:" msg);
        ConsoleError "Startup aborted: lucky-number-app is not reachable."]) /\
    (forall port, ~ In (Listen port) (snd (main H []))) /\
    request H (snd (main H [])) = ConnectionRefused).
  { intros msg E.
    assert (Hm : main H [] =
      (Exit 1,
       [ConsoleError (spaced "Could not reach lucky-number-app /ping endpoint:" msg);
        ConsoleError "Startup aborted: lucky-number-app is not reachable."])).
    { unfold main, bind. rewrite E. reflexivity. }
    rewrite Hm. cbn [snd]. split; [reflexivity|]. split; [|reflexivity].
    intros port [F | [F | []]]; discriminate F. }
  destruct (check_table H []) as (T1 & T2 & T3 & T4 & T5 & T6 & T7).
  cbv zeta in *. cbn [app] in *. unfold decision in Hd.
  destruct (fetch H (PING_URL H) (Some 2000)) as [e | r |] eqn:Hf.
  - exists (message e).
    destruct (Hmain _ (T1 e eq_refl)) as (M1 & M2 & M3).
    repeat (split; [first [assumption | intros; congruence]|]).
    intros; congruence.
  - destruct (ok r) eqn:Hok.
    + destruct (json r) as [e | data |] eqn:Hj.
      * exists (message e).
        destruct (Hmain _ (T3 r e eq_refl Hok Hj)) as (M1 & M2 & M3).
        repeat (split; [first [assumption | intros; congruence]|]).
        intros; congruence.
      * destruct data as [| b | q | s | l | ms].
        1:{ exists (message (null_access "status")).
            destruct (Hmain _ (T4 r eq_refl Hok Hj)) as (M1 & M2 & M3).
            repeat (split; [first [assumption | intros; congruence]|]).
            intros; congruence. }
        1-4: exists "Ping returned unexpected status";
             match type of Hj with
             | json ?r0 = JsonResolves ?d =>
                 assert (Hno : ~ status_is_ok d)
                   by (intros (ms0 & F & _); discriminate F);
                 destruct (Hmain _ (T5 r0 d eq_refl Hok Hj ltac:(discriminate) Hno))
                   as (M1 & M2 & M3)
             end;
             repeat (split; [first [assumption | intros; congruence]|]);
             intros; congruence.
        destruct (strict_eq_str (member "status" ms) "ok") eqn:Hs.
        -- apply strict_eq_str_true in Hs.
           rewrite (T6 r (JObj ms) eq_refl Hok Hj) in Hd
             by (exists ms; split; [reflexivity | exact Hs]).
           discriminate Hd.
        -- exists "Ping returned unexpected status".
           assert (Hno : ~ status_is_ok (JObj ms)).
           { intros (ms0 & [= <-] & F). apply strict_eq_str_true in F. congruence. }
           destruct (Hmain _ (T5 r (JObj ms) eq_refl Hok Hj ltac:(discriminate) Hno))
             as (M1 & M2 & M3).
           repeat (split; [first [assumption | intros; congruence]|]).
           intros; congruence.
      * rewrite T7 in Hd by (right; exists r; repeat split; assumption).
        discriminate Hd.
    + exists "Ping failed".
      destruct (Hmain _ (T2 r eq_refl Hok)) as (M1 & M2 & M3).
      repeat (split; [first [assumption | intros; congruence]|]).
      intros; congruence.
  - rewrite T7 in Hd by now left. discriminate Hd.
Qed.

Lemma C2_abort_exits_unbound_witness :
  let H := host_with None (Rejects (new_Error "network timeout")) fixed_markup in
  exists msg,
    main H [] =
      (Exit 1,
       [ConsoleError (spaced "Could not reach lucky-number-app /ping endpoint:" msg);
        ConsoleError "Startup aborted: lucky-number-app is not reachable."]) /\
    (forall port, ~ In (Listen port) (snd (main H []))) /\
    request H (snd (main H [])) = ConnectionRefused /\
    (forall e, fetch H (PING_URL H) (Some 2000) = Rejects e -> msg = message e) /\
    (forall r, fetch H (PING_URL H) (Some 2000) = Resolves r -> ok r = false ->
       msg = "Ping failed") /\
    (forall r e, fetch H (PING_URL H) (Some 2000) = Resolves r -> ok r = true ->
       json r = JsonRejects e -> msg = message e) /\
    (forall r, fetch H (PING_URL H) (Some 2000) = Resolves r -> ok r = true ->
       json r = JsonResolves JNull -> msg = message (null_access "status")) /\
    (forall r data, fetch H (PING_URL H) (Some 2000) = Resolves r -> ok r = true ->
       json r = JsonResolves data -> data <> JNull ->
       msg = "Ping returned unexpected status").
Proof.
  apply (C2_abort_exits_unbound
           (host_with None (Rejects (new_Error "network timeout")) fixed_markup)).
  reflexivity.
Defined.

(** C2 as stated fails in its logging part: with the backend at
    [http://localhost:3001] answering 503, the gate aborts and neither
    console line names the probed address. *)
Lemma C2_counterexample :
  decision (checkLuckyNumberApp
              (host_with (Some "http://localhost:3001/lucky")
                 (answer 503 (JObj [])) fixed_markup) []) = Some Abort /\
  PING_URL (host_with (Some "http://localhost:3001/lucky")
              (answer 503 (JObj [])) fixed_markup) = "http://localhost:3001/ping" /\
  existsb (mentions "localhost:3001")
    (snd (main (host_with (Some "http://localhost:3001/lucky")
                  (answer 503 (JObj [])) fixed_markup) [])) = false.
Proof. vm_compute. repeat split. Qed.

(** ** The request forwarder *)

(** On [Proceed] the listener is bound and the start is logged. *)
Lemma main_proceeds (H : Host) :
  decision (checkLuckyNumberApp H []) = Some Proceed ->
  listen H (PORT H) = None ->
  main H [] =
  (Return tt,
   [Listen (PORT H); ConsoleLog ("Lucky Web App running on port " ++ PORT H)]) /\
  listening (snd (main H [])) = true.
Proof.
  intros Hd Hb. unfold decision in Hd.
  destruct (check_cases H []) as [E | [[err E] | E]];
    rewrite E in Hd; cbn in Hd; try discriminate.
  assert (Hm : main H [] =
    (Return tt,
     [Listen (PORT H); ConsoleLog ("Lucky Web App running on port " ++ PORT H)])).
  { unfold main, app_listen, bind. rewrite E, Hb. reflexivity. }
  rewrite Hm. split; reflexivity.
Qed.

(** C8: once the listener is bound, a request whose call of the backend
    fails (the fetch is rejected, the body does not parse, the body is
    [null], or the renderer throws) ends in the [catch] branch: the error
    is logged, the reply is 500 with the fixed text, and the handler
    returns normally; in no case at all does an exception or an exit
    leave the handler. *)
Theorem C8_forwarder_failures (H : Host) (t : Trace) :
  listening t = true ->
  let upstream := fetch H (LUCKY_API_URL H) None in
  let failed e :=
    request H t =
    Handled
      (Return tt,
       (t ++ [ConsoleErrorObj e; Send 500 "Failed to fetch lucky number"])%list) in
  (forall e, upstream = Rejects e -> failed e) /\
  (forall r e, upstream = Resolves r -> json r = JsonRejects e -> failed e) /\
  (forall r, upstream = Resolves r -> json r = JsonResolves JNull ->
     failed (null_access "luckyNumber")) /\
  (forall r data e, upstream = Resolves r -> json r = JsonResolves data ->
     data <> JNull ->
     renderToString H (LuckyPage (own_prop data "luckyNumber")) = inl e ->
     failed e) /\
  (forall e t', request H t <> Handled (Throw e, t')) /\
  (forall c t', request H t <> Handled (Exit c, t')).
Proof.
  intros Hl. cbv zeta. unfold request. rewrite Hl.
  unfold handleRoot, try_catch, bind, render.
  repeat split.
  - intros e ->. now run_js.
  - intros r e -> Hj. cbn. rewrite Hj. now run_js.
  - intros r -> Hj. cbn. rewrite Hj. now run_js.
  - intros r data e -> Hj Hnn Hr. cbn. rewrite Hj.
    destruct data; try congruence; cbn in *; rewrite Hr; now run_js.
  - intros e t'.
    destruct (fetch H (LUCKY_API_URL H) None) as [e0 | r |]; run_js; try discriminate.
    destruct (json r) as [e0 | data |]; run_js; try discriminate.
    destruct data; run_js; try discriminate;
      match goal with
      | |- context [renderToString H ?el] => destruct (renderToString H el)
      end; run_js; discriminate.
  - intros c t'.
    destruct (fetch H (LUCKY_API_URL H) None) as [e0 | r |]; run_js; try discriminate.
    destruct (json r) as [e0 | data |]; run_js; try discriminate.
    destruct data; run_js; try discriminate;
      match goal with
      | |- context [renderToString H ?el] => destruct (renderToString H el)
      end; run_js; discriminate.
Qed.

Lemma C8_forwarder_failures_witness :
  (let H := host_after_start (Rejects (new_Error "ECONNREFUSED")) fixed_markup in
   request H (snd (main H [])) =
   Handled
     (Return tt,
      (snd (main H []) ++
       [ConsoleErrorObj (new_Error "ECONNREFUSED");
        Send 500 "Failed to fetch lucky number"])%list)) /\
  (let H := host_after_start
              (Resolves {| status := 200;
                           json := JsonRejects (new_Error "invalid json") |})
              fixed_markup in
   request H (snd (main H [])) =
   Handled
     (Return tt,
      (snd (main H []) ++
       [ConsoleErrorObj (new_Error "invalid json");
        Send 500 "Failed to fetch lucky number"])%list)) /\
  (let H := host_after_start (answer 200 JNull) fixed_markup in
   request H (snd (main H [])) =
   Handled
     (Return tt,
      (snd (main H []) ++
       [ConsoleErrorObj (null_access "luckyNumber");
        Send 500 "Failed to fetch lucky number"])%list)) /\
  (let H := host_after_start (answer 200 (JObj [("luckyNumber", JObj [])]))
              broken_renderer in
   request H (snd (main H [])) =
   Handled
     (Return tt,
      (snd (main H []) ++
       [ConsoleErrorObj (new_Error "Objects are not valid as a React child");
        Send 500 "Failed to fetch lucky number"])%list)).
Proof.
  split; [|split; [|split]]; cbv zeta.
  - apply (proj1 (C8_forwarder_failures
                    (host_after_start (Rejects (new_Error "ECONNREFUSED")) fixed_markup)
                    (snd (main (host_after_start (Rejects (new_Error "ECONNREFUSED"))
                                  fixed_markup) []))
                    eq_refl)
             (new_Error "ECONNREFUSED")).
    reflexivity.
  - apply (proj1 (proj2 (C8_forwarder_failures
                    (host_after_start
                       (Resolves {| status := 200;
                                    json := JsonRejects (new_Error "invalid json") |})
                       fixed_markup)
                    (snd (main (host_after_start
                                  (Resolves {| status := 200;
                                               json := JsonRejects
                                                         (new_Error "invalid json") |})
                                  fixed_markup) []))
                    eq_refl))
             {| status := 200; json := JsonRejects (new_Error "invalid json") |}
             (new_Error "invalid json"));
      reflexivity.
  - apply (proj1 (proj2 (proj2 (C8_forwarder_failures
                    (host_after_start (answer 200 JNull) fixed_markup)
                    (snd (main (host_after_start (answer 200 JNull) fixed_markup) []))
                    eq_refl)))
             {| status := 200; json := JsonResolves JNull |});
      reflexivity.
  - apply (proj1 (proj2 (proj2 (proj2 (C8_forwarder_failures
                    (host_after_start (answer 200 (JObj [("luckyNumber", JObj [])]))
                       broken_renderer)
                    (snd (main (host_after_start
                                  (answer 200 (JObj [("luckyNumber", JObj [])]))
                                  broken_renderer) []))
                    eq_refl))))
             {| status := 200;
                json := JsonResolves (JObj [("luckyNumber", JObj [])]) |}
             (JObj [("luckyNumber", JObj [])])
             (new_Error "Objects are not valid as a React child"));
      try reflexivity.
    discriminate.
Defined.

(** C9, as the code has it: the forwarder checks neither the status code
    of the backend's answer nor the shape of its body.  Whatever
    [data.luckyNumber] is for a parsed body other than [null] (absent, or
    of any type) is handed to the renderer, and when the renderer returns,
    the reply is 200 with the rendered page. *)
Theorem C9_no_shape_validation (H : Host) (t : Trace)
  (r : Response) (data : Json) (html : string) :
  listening t = true ->
  fetch H (LUCKY_API_URL H) None = Resolves r ->
  json r = JsonResolves data ->
  data <> JNull ->
  renderToString H (LuckyPage (own_prop data "luckyNumber")) = inr html ->
  request H t = Handled (Return tt, (t ++ [Send 200 (page html)])%list).
Proof.
  intros Hl Hf Hj Hnn Hr. unfold request. rewrite Hl.
  unfold handleRoot, try_catch, bind, render.
  rewrite Hf. cbn. rewrite Hj. cbn.
  destruct data; try congruence; cbn in *; rewrite Hr; reflexivity.
Qed.

Lemma C9_no_shape_validation_witness :
  own_prop (JObj [("error", JStr "overloaded")]) "luckyNumber" = None /\
  (let H := host_after_start (answer 503 (JObj [("error", JStr "overloaded")]))
              fixed_markup in
   request H (snd (main H [])) =
   Handled
     (Return tt,
      (snd (main H []) ++
       [Send 200 (page "<div><h1>Your Lucky Number</h1></div>")])%list)).
Proof.
  split; [reflexivity|]. cbv zeta.
  apply (C9_no_shape_validation
           (host_after_start (answer 503 (JObj [("error", JStr "overloaded")]))
              fixed_markup)
           (snd (main (host_after_start
                         (answer 503 (JObj [("error", JStr "overloaded")]))
                         fixed_markup) []))
           {| status := 503;
              json := JsonResolves (JObj [("error", JStr "overloaded")]) |}
           (JObj [("error", JStr "overloaded")])
           "<div><h1>Your Lucky Number</h1></div>");
    try reflexivity.
  discriminate.
Defined.

(** C9 as stated fails: the body [null] is valid JSON without a
    [luckyNumber] field, and the reply of the started frontend is 500, not
    200. *)
Lemma C9_counterexample :
  own_prop JNull "luckyNumber" = None /\
  listening (snd (main (host_after_start (answer 200 JNull) fixed_markup) [])) = true /\
  request (host_after_start (answer 200 JNull) fixed_markup)
    (snd (main (host_after_start (answer 200 JNull) fixed_markup) [])) =
  Handled
    (Return tt,
     [Listen "4000"; ConsoleLog "Lucky Web App running on port 4000";
      ConsoleErrorObj (null_access "luckyNumber");
      Send 500 "Failed to fetch lucky number"]).
Proof. repeat split. Qed.

End FrontendFacts.

(* ===================================================================== *)
(** * Properties of the arithmetic on doubles                             *)
(* ===================================================================== *)

Section Binary64Facts.
Import JS Backend.
Local Open Scope Q_scope.

(** ** Powers of two *)

Lemma two_neq0 : ~ 2 == 0.
Proof. discriminate. Qed.

Lemma pow2_pos (k : Z) : 0 < 2 ^ k.
Proof. apply Qpower_0_lt. reflexivity. Qed.

Lemma pow2_add (a b : Z) : 2 ^ (a + b) == 2 ^ a * 2 ^ b.
Proof. apply Qpower_plus, two_neq0. Qed.

Lemma pow2_Z (n : Z) : (0 <= n)%Z -> inject_Z (2 ^ n) == 2 ^ n.
Proof. intros Hn. now rewrite Zpower_Qpower. Qed.

Lemma pow2_le (a b : Z) : (a <= b)%Z -> 2 ^ a <= 2 ^ b.
Proof. intros H. apply Qpower_le_compat_l; [exact H | discriminate]. Qed.

Lemma pow2_lt_inv (a b : Z) : 2 ^ a < 2 ^ b -> (a < b)%Z.
Proof. intros H. apply (Qpower_lt_compat_l_inv 2); [exact H | reflexivity]. Qed.

Lemma frac_lt (a b c d : Z) :
  (0 < b)%Z -> (0 < d)%Z -> (a * d < c * b)%Z ->
  inject_Z a / inject_Z b < inject_Z c / inject_Z d.
Proof.
  intros Hb Hd H. destruct b as [|b|b]; try lia. destruct d as [|d|d]; try lia.
  unfold Qlt, Qdiv, Qmult, Qinv, inject_Z. cbn [Qnum Qden].
  rewrite !Pos2Z.inj_mul. lia.
Qed.

Lemma frac_le (a b c d : Z) :
  (0 < b)%Z -> (0 < d)%Z -> (a * d <= c * b)%Z ->
  inject_Z a / inject_Z b <= inject_Z c / inject_Z d.
Proof.
  intros Hb Hd H. destruct b as [|b|b]; try lia. destruct d as [|d|d]; try lia.
  unfold Qle, Qdiv, Qmult, Qinv, inject_Z. cbn [Qnum Qden].
  rewrite !Pos2Z.inj_mul. lia.
Qed.

Lemma pow2_quot (a b : Z) :
  (0 <= a)%Z -> (0 <= b)%Z -> 2 ^ (a - b) == inject_Z (2 ^ a) / inject_Z (2 ^ b).
Proof.
  intros Ha Hb. rewrite Qpower_minus by apply two_neq0.
  now rewrite !pow2_Z.
Qed.

(** ** The binade of a positive number *)

Lemma ilog2_spec (q : Q) :
  0 < q -> 2 ^ ilog2 q <= q /\ q < 2 ^ (ilog2 q + 1).
Proof.
  intros Hq. destruct q as [n d]. unfold Qlt in Hq. cbn in Hq.
  assert (Hn : (0 < n)%Z) by lia.
  pose proof (Z.log2_spec n Hn) as [A1 A2].
  pose proof (Z.log2_spec (Zpos d) ltac:(lia)) as [B1 B2].
  pose proof (Z.log2_nonneg n) as A0.
  pose proof (Z.log2_nonneg (Zpos d)) as B0.
  assert (Hq' : n # d == inject_Z n / inject_Z (Zpos d)) by apply Qmake_Qdiv.
  unfold ilog2. cbn [Qnum Qden].
  set (a := Z.log2 n) in *. set (b := Z.log2 (Zpos d)) in *.
  assert (P1 : (0 < 2 ^ a)%Z) by (apply Z.pow_pos_nonneg; lia).
  assert (P2 : (0 < 2 ^ b)%Z) by (apply Z.pow_pos_nonneg; lia).
  rewrite Z.pow_succ_r in A2, B2 by lia.
  destruct (Qle_bool (2 ^ (a - b)) (n # d)) eqn:E.
  - apply Qle_bool_iff in E. split; [exact E|].
    replace (a - b + 1)%Z with ((a + 1) - b)%Z by lia.
    rewrite pow2_quot, Hq' by lia.
    replace (a + 1)%Z with (Z.succ a) by lia. rewrite Z.pow_succ_r by lia.
    apply frac_lt; nia.
  - assert (E' : n # d < 2 ^ (a - b)).
    { apply Qnot_le_lt. intros F. apply Qle_bool_iff in F. congruence. }
    split.
    + replace (a - b - 1)%Z with (a - (b + 1))%Z by lia.
      rewrite pow2_quot, Hq' by lia.
      replace (b + 1)%Z with (Z.succ b) by lia. rewrite Z.pow_succ_r by lia.
      apply frac_le; nia.
    + replace (a - b - 1 + 1)%Z with (a - b)%Z by lia. exact E'.
Qed.

Lemma ilog2_lt (q : Q) (K : Z) : 0 < q -> q < 2 ^ K -> (ilog2 q < K)%Z.
Proof.
  intros Hq H. destruct (ilog2_spec q Hq) as [L _].
  apply pow2_lt_inv. eapply Qle_lt_trans; eassumption.
Qed.

Lemma ilog2_ge (q : Q) (K : Z) : 0 < q -> 2 ^ K <= q -> (K <= ilog2 q)%Z.
Proof.
  intros Hq H. destruct (ilog2_spec q Hq) as [_ U].
  assert (K < ilog2 q + 1)%Z; [|lia].
  apply pow2_lt_inv. eapply Qle_lt_trans; eassumption.
Qed.

(** ** The nearest integer *)

Lemma floor_bounds (q : Q) :
  inject_Z (Qfloor q) <= q /\ q < inject_Z (Qfloor q) + 1.
Proof.
  split; [apply Qfloor_le|].
  pose proof (Qlt_floor q) as H. rewrite inject_Z_plus in H. exact H.
Qed.

Lemma Z_of_Q_le (a b : Z) : inject_Z a <= inject_Z b -> (a <= b)%Z.
Proof. intros H. now rewrite Zle_Qle. Qed.

Lemma Z_of_Q_lt (a b : Z) : inject_Z a < inject_Z b -> (a < b)%Z.
Proof. intros H. now rewrite Zlt_Qlt. Qed.

Lemma inject_Z_succ (a : Z) : inject_Z (a + 1) == inject_Z a + 1.
Proof. now rewrite inject_Z_plus. Qed.

Lemma Q_of_Z_le1 (a b : Z) : (a + 1 <= b)%Z -> inject_Z a + 1 <= inject_Z b.
Proof. intros H. rewrite <- inject_Z_succ. now rewrite <- Zle_Qle. Qed.

Lemma rne_cases (q : Q) :
  (rne q = Qfloor q /\ q <= inject_Z (Qfloor q) + (1 # 2)) \/
  (rne q = (Qfloor q + 1)%Z /\ inject_Z (Qfloor q) + (1 # 2) <= q).
Proof.
  unfold rne. destruct (floor_bounds q) as [L U].
  destruct (Qcompare_spec (q - inject_Z (Qfloor q)) (1 # 2)) as [E|E|E].
  - destruct (Z.even (Qfloor q)); [left|right]; split; trivial; lra.
  - left. split; trivial; lra.
  - right. split; trivial; lra.
Qed.

Lemma rne_le_int (q : Q) (j : Z) : q <= inject_Z j -> (rne q <= j)%Z.
Proof.
  intros H. destruct (floor_bounds q) as [L U].
  destruct (rne_cases q) as [[-> _]|[-> M]].
  - apply Z_of_Q_le. lra.
  - assert (Qfloor q < j)%Z; [|lia]. apply Z_of_Q_lt. lra.
Qed.

Lemma rne_ge_int (q : Q) (j : Z) : inject_Z j <= q -> (j <= rne q)%Z.
Proof.
  intros H. destruct (floor_bounds q) as [L U].
  assert (j < Qfloor q + 1)%Z.
  { apply Z_of_Q_lt. rewrite inject_Z_succ. lra. }
  destruct (rne_cases q) as [[-> _]|[-> M]]; lia.
Qed.

Lemma rne_half (q : Q) (j : Z) : q < inject_Z j + (1 # 2) -> (rne q <= j)%Z.
Proof.
  intros H. destruct (floor_bounds q) as [L U].
  destruct (rne_cases q) as [[-> _]|[-> M]].
  - assert (Qfloor q < j + 1)%Z; [|lia]. apply Z_of_Q_lt. rewrite inject_Z_succ. lra.
  - assert (Qfloor q < j)%Z; [|lia]. apply Z_of_Q_lt. lra.
Qed.


Lemma rne_mono (p q : Q) : p <= q -> (rne p <= rne q)%Z.
Proof.
  intros H.
  destruct (floor_bounds p) as [Lp Up]. destruct (floor_bounds q) as [Lq Uq].
  assert (F : (Qfloor p <= Qfloor q)%Z) by now apply Qfloor_resp_le.
  destruct (Z.eq_dec (Qfloor p) (Qfloor q)) as [E|E].
  - unfold rne. rewrite <- E.
    destruct (Qcompare_spec (p - inject_Z (Qfloor p)) (1 # 2)) as [A|A|A];
    destruct (Qcompare_spec (q - inject_Z (Qfloor p)) (1 # 2)) as [B|B|B];
    try destruct (Z.even (Qfloor p)); try lia; exfalso; lra.
  - assert (Qfloor p + 1 <= Qfloor q)%Z by lia.
    destruct (rne_cases p) as [[-> _]|[-> _]];
    destruct (rne_cases q) as [[-> _]|[-> _]]; lia.
Qed.

(** ** The nearest double

    Rounding never crosses a number of the grid it rounds to, nor of a
    coarser one, and it moves a number by half a unit in the last place
    at most. *)


Lemma grid_lift (j e E : Z) :
  (e <= E)%Z -> inject_Z j * 2 ^ E == inject_Z (j * 2 ^ (E - e)) * 2 ^ e.
Proof.
  intros H. replace E with ((E - e) + e)%Z at 1 by lia.
  rewrite pow2_add, inject_Z_mult, pow2_Z by lia. ring.
Qed.

Lemma round_pos_le (x : Q) (j : Z) :
  x <= inject_Z j * 2 ^ ulp_exp x -> round_pos x <= inject_Z j * 2 ^ ulp_exp x.
Proof.
  intros H. unfold round_pos. pose proof (pow2_pos (ulp_exp x)) as P.
  apply Qmult_le_compat_r; [|lra].
  rewrite <- Zle_Qle. apply rne_le_int. apply Qle_shift_div_r; assumption.
Qed.

Lemma round_pos_ge (x : Q) (j : Z) :
  inject_Z j * 2 ^ ulp_exp x <= x -> inject_Z j * 2 ^ ulp_exp x <= round_pos x.
Proof.
  intros H. unfold round_pos. pose proof (pow2_pos (ulp_exp x)) as P.
  apply Qmult_le_compat_r; [|lra].
  rewrite <- Zle_Qle. apply rne_ge_int. apply Qle_shift_div_l; assumption.
Qed.

Lemma round_pos_half (x : Q) (j : Z) :
  x < (inject_Z j + (1 # 2)) * 2 ^ ulp_exp x ->
  round_pos x <= inject_Z j * 2 ^ ulp_exp x.
Proof.
  intros H. unfold round_pos. pose proof (pow2_pos (ulp_exp x)) as P.
  apply Qmult_le_compat_r; [|lra].
  rewrite <- Zle_Qle. apply rne_half. apply Qlt_shift_div_r; assumption.
Qed.


Lemma round_pos_grid_le (x : Q) (j E : Z) :
  (ulp_exp x <= E)%Z -> x <= inject_Z j * 2 ^ E -> round_pos x <= inject_Z j * 2 ^ E.
Proof.
  intros HE. rewrite (grid_lift j (ulp_exp x) E HE). apply round_pos_le.
Qed.

Lemma round_pos_grid_ge (x : Q) (j E : Z) :
  (ulp_exp x <= E)%Z -> inject_Z j * 2 ^ E <= x -> inject_Z j * 2 ^ E <= round_pos x.
Proof.
  intros HE. rewrite (grid_lift j (ulp_exp x) E HE). apply round_pos_ge.
Qed.

Lemma round_pos_mono (x y : Q) : 0 < x -> x <= y -> round_pos x <= round_pos y.
Proof.
  intros Hx Hxy.
  assert (Hy : 0 < y) by lra.
  assert (HE : (ulp_exp x <= ulp_exp y)%Z).
  { unfold ulp_exp. assert (ilog2 x <= ilog2 y)%Z; [|lia].
    apply ilog2_ge; [exact Hy|].
    destruct (ilog2_spec x Hx) as [L _]. lra. }
  destruct (Z.eq_dec (ulp_exp x) (ulp_exp y)) as [E|E].
  - unfold round_pos. rewrite E. pose proof (pow2_pos (ulp_exp y)) as P.
    apply Qmult_le_compat_r; [|lra].
    rewrite <- Zle_Qle. apply rne_mono.
    apply Qmult_le_compat_r; [exact Hxy|]. apply Qlt_le_weak, Qinv_lt_0_compat, P.
  - (* x lies below the binade of y: the power of two between them is on
       both grids *)
    assert (Hlt : (ulp_exp x < ulp_exp y)%Z) by lia.
    assert (Hk : (ilog2 x < ilog2 y)%Z) by (unfold ulp_exp in Hlt; lia).
    assert (Hy52 : ulp_exp y = (ilog2 y - 52)%Z) by (unfold ulp_exp in *; lia).
    destruct (ilog2_spec x Hx) as [_ Ux]. destruct (ilog2_spec y Hy) as [Ly _].
    assert (B : 2 ^ ilog2 y == inject_Z (2 ^ 52) * 2 ^ ulp_exp y).
    { rewrite Hy52. rewrite pow2_Z by lia. rewrite <- pow2_add.
      now replace (52 + (ilog2 y - 52))%Z with (ilog2 y) by lia. }
    assert (Hx' : x <= 2 ^ ilog2 y).
    { apply Qlt_le_weak. eapply Qlt_le_trans; [exact Ux|]. apply pow2_le. lia. }
    apply Qle_trans with (2 ^ ilog2 y).
    + rewrite B. apply round_pos_grid_le; [lia|]. now rewrite <- B.
    + rewrite B. apply round_pos_ge. now rewrite <- B.
Qed.

Lemma round64_cases (x : Q) :
  0 <= x -> (x == 0 /\ round64 x = 0) \/ (0 < x /\ round64 x = round_pos x).
Proof.
  intros H. unfold round64. destruct x as [n d]. unfold Qle in H. cbn in H.
  destruct n as [|n|n]; cbn [Qnum].
  - left. split; reflexivity.
  - right. split; reflexivity.
  - lia.
Qed.

Lemma ulp_exp_le (x : Q) (K : Z) :
  0 < x -> x < 2 ^ (K + 53) -> (-1074 <= K)%Z -> (ulp_exp x <= K)%Z.
Proof.
  intros Hx H HK. pose proof (ilog2_lt x _ Hx H). unfold ulp_exp. lia.
Qed.

Lemma ulp_exp_eq (x : Q) (K : Z) :
  2 ^ (K + 52) <= x -> x < 2 ^ (K + 53) -> (-1074 <= K)%Z -> ulp_exp x = K.
Proof.
  intros L U HK. pose proof (pow2_pos (K + 52)) as P.
  assert (Hx : 0 < x) by lra.
  pose proof (ilog2_lt x _ Hx U). pose proof (ilog2_ge x _ Hx L).
  unfold ulp_exp. lia.
Qed.

Lemma round64_grid_le (x : Q) (j E : Z) :
  0 <= x -> x < 2 ^ (E + 53) -> (-1074 <= E)%Z ->
  x <= inject_Z j * 2 ^ E -> round64 x <= inject_Z j * 2 ^ E.
Proof.
  intros H0 HU HE H. destruct (round64_cases x H0) as [[Z ->]|[P ->]].
  - lra.
  - apply round_pos_grid_le; [|exact H]. now apply ulp_exp_le.
Qed.

Lemma round64_grid_ge (x : Q) (j E : Z) :
  0 <= x -> x < 2 ^ (E + 53) -> (-1074 <= E)%Z ->
  inject_Z j * 2 ^ E <= x -> inject_Z j * 2 ^ E <= round64 x.
Proof.
  intros H0 HU HE H. destruct (round64_cases x H0) as [[Z ->]|[P ->]].
  - lra.
  - apply round_pos_grid_ge; [|exact H]. now apply ulp_exp_le.
Qed.

Lemma round64_int_le (x : Q) (j : Z) :
  0 <= x -> x < 2 ^ 53 -> x <= inject_Z j -> round64 x <= inject_Z j.
Proof.
  intros H0 HU H. pose proof (round64_grid_le x j 0 H0 HU ltac:(lia)) as G.
  change (2 ^ 0) with 1 in G. rewrite Qmult_1_r in G. auto.
Qed.

Lemma round64_int_ge (x : Q) (j : Z) :
  0 <= x -> x < 2 ^ 53 -> inject_Z j <= x -> inject_Z j <= round64 x.
Proof.
  intros H0 HU H. pose proof (round64_grid_ge x j 0 H0 HU ltac:(lia)) as G.
  change (2 ^ 0) with 1 in G. rewrite Qmult_1_r in G. auto.
Qed.


Lemma round64_half (x : Q) (j E : Z) :
  2 ^ (E + 52) <= x -> x < 2 ^ (E + 53) -> (-1074 <= E)%Z ->
  x < (inject_Z j + (1 # 2)) * 2 ^ E -> round64 x <= inject_Z j * 2 ^ E.
Proof.
  intros L U HE H. pose proof (pow2_pos (E + 52)) as P.
  destruct (round64_cases x ltac:(lra)) as [[Z _]|[_ ->]]; [lra|].
  pose proof (ulp_exp_eq x E L U HE) as Ex.
  rewrite <- Ex. apply round_pos_half. now rewrite Ex.
Qed.

Lemma round64_mono (x y : Q) : 0 <= x -> x <= y -> round64 x <= round64 y.
Proof.
  intros Hx Hxy.
  destruct (round64_cases x Hx) as [[Zx ->]|[Px ->]];
  destruct (round64_cases y ltac:(lra)) as [[Zy ->]|[Py ->]]; try lra.
  - pose proof (round_pos_ge y 0) as G. rewrite Qmult_0_l in G. apply G. lra.
  - now apply round_pos_mono.
Qed.

(** The largest double below 1 is [1 - 2 ^ -53]. *)
Lemma is_double_lt_1 (u : Q) :
  is_double u = true -> 0 <= u -> u < 1 -> u <= 1 - (1 # 2 ^ 53).
Proof.
  intros D H0 H1. apply Qeq_bool_iff in D.
  destruct (Qlt_le_dec u (1 # 2)) as [S|S].
  - eapply Qle_trans; [apply Qlt_le_weak, S|]. discriminate.
  - destruct (round64_cases u H0) as [[Z _]|[_ R]]; [lra|].
    rewrite R in D.
    assert (E : ulp_exp u = (-53)%Z).
    { apply ulp_exp_eq; [exact S|exact H1|lia]. }
    unfold round_pos in D. rewrite E in D.
    set (j := rne (u / 2 ^ (-53))) in D.
    assert (Hj : (j < 2 ^ 53)%Z).
    { apply Z_of_Q_lt. rewrite <- D in H1.
      change (2 ^ (-53)) with (1 # 9007199254740992) in H1.
      change (inject_Z (2 ^ 53)) with (9007199254740992 # 1). lra. }
    assert (Hj' : inject_Z j <= inject_Z (2 ^ 53 - 1)) by (rewrite <- Zle_Qle; lia).
    rewrite <- D. change (2 ^ (-53)) with (1 # 9007199254740992).
    change (1 # 2 ^ 53) with (1 # 9007199254740992).
    change (inject_Z (2 ^ 53 - 1)) with (9007199254740991 # 1) in Hj'. lra.
Qed.

(** ** The lucky number *)

Lemma small_lt_2p53 (x : Q) : x <= 128 -> x < 2 ^ 53.
Proof. intros H. change (2 ^ 53) with (9007199254740992 # 1). lra. Qed.


Lemma inject_Z_shift (m k : Z) : inject_Z (m - k) == inject_Z m - inject_Z k.
Proof. unfold Qeq, Qminus, Qplus, Qopp, inject_Z. cbn. lia. Qed.

Lemma product_bounds (u : Q) :
  0 <= u -> u < 1 -> 0 <= round64 (u * 90) /\ round64 (u * 90) <= 90.
Proof.
  intros H0 H1. split.
  - apply (round64_int_ge (u * 90) 0); [lra|apply small_lt_2p53; lra|].
    change (inject_Z 0) with 0. lra.
  - apply (round64_int_le (u * 90) 90); [lra|apply small_lt_2p53; lra|].
    change (inject_Z 90) with 90. lra.
Qed.

(** The number is never below the floor of the exact value ... *)
Lemma lucky_of_lower (u : Q) (m : Z) :
  0 <= u -> u < 1 -> inject_Z m <= 10 + u * 90 -> (m <= lucky_of u)%Z.
Proof.
  intros H0 H1 H. destruct (product_bounds u H0 H1) as [P0 P90].
  assert (P : inject_Z (m - 10) <= round64 (u * 90)).
  { apply round64_int_ge; [lra|apply small_lt_2p53; lra|].
    rewrite inject_Z_shift. change (inject_Z 10) with 10. lra. }
  rewrite inject_Z_shift in P. change (inject_Z 10) with 10 in P.
  assert (S : inject_Z m <= round64 (10 + round64 (u * 90))).
  { apply round64_int_ge; [lra|apply small_lt_2p53; lra|lra]. }
  unfold lucky_of. rewrite <- (Qfloor_Z m). now apply Qfloor_resp_le.
Qed.


Lemma lucky_of_top (u : Q) :
  0 <= u -> u <= 1 - (1 # 2 ^ 53) -> (lucky_of u <= 99)%Z.
Proof.
  intros H0 H1. change (1 # 2 ^ 53) with (1 # 9007199254740992) in H1.
  destruct (product_bounds u H0 ltac:(lra)) as [P0 _].
  assert (P : round64 (u * 90) <= 90 - (1 # 70368744177664)).
  { destruct (Qlt_le_dec (u * 90) 64) as [S|S].
    - pose proof (round64_int_le (u * 90) 64 ltac:(lra) ltac:(apply small_lt_2p53; lra)
                    ltac:(change (inject_Z 64) with 64; lra)) as G.
      change (inject_Z 64) with 64 in G. lra.
    - pose proof (round64_half (u * 90) (90 * 2 ^ 46 - 1) (-46)) as G.
      change (2 ^ (-46 + 52)) with 64 in G.
      change (2 ^ (-46 + 53)) with 128 in G.
      change (2 ^ (-46)) with (1 # 70368744177664) in G.
      change (inject_Z (90 * 2 ^ 46 - 1)) with (6333186975989759 # 1) in G.
      specialize (G S ltac:(lra) ltac:(lia) ltac:(lra)). lra. }
  pose proof (round64_grid_le (10 + round64 (u * 90)) (100 * 2 ^ 46 - 1) (-46)) as G.
  change (2 ^ (-46 + 53)) with 128 in G.
  change (2 ^ (-46)) with (1 # 70368744177664) in G.
  change (inject_Z (100 * 2 ^ 46 - 1)) with (7036874417766399 # 1) in G.
  specialize (G ltac:(lra) ltac:(lra) ltac:(lia) ltac:(lra)).
  unfold lucky_of. destruct (floor_bounds (round64 (10 + round64 (u * 90)))) as [L _].
  assert (Qfloor (round64 (10 + round64 (u * 90))) < 100)%Z; [|lia].
  apply Z_of_Q_lt. change (inject_Z 100) with 100. lra.
Qed.

Lemma lucky_of_range (u : Q) :
  is_double u = true -> 0 <= u -> u < 1 -> (10 <= lucky_of u <= 99)%Z.
Proof.
  intros D H0 H1. split.
  - apply lucky_of_lower; trivial. change (inject_Z 10) with 10. lra.
  - apply lucky_of_top; trivial. now apply is_double_lt_1.
Qed.

Lemma lucky_of_mono (u v : Q) : 0 <= u -> u <= v -> (lucky_of u <= lucky_of v)%Z.
Proof.
  intros H0 H. unfold lucky_of. apply Qfloor_resp_le.
  assert (P : round64 (u * 90) <= round64 (v * 90)) by (apply round64_mono; lra).
  assert (P0 : 0 <= round64 (u * 90)).
  { pose proof (round64_mono 0 (u * 90) ltac:(lra) ltac:(lra)) as G. exact G. }
  apply round64_mono; lra.
Qed.

End Binary64Facts.

(* ===================================================================== *)
(** * Properties of the backend                                           *)
(* ===================================================================== *)

Section BackendFacts.
Import JS Backend.

Variable R : Runtime.

(** ** The busy loop *)

(** The clock shows less than [m] milliseconds exactly before tick
    [m * res]. *)
Lemma reading_lt (t m : Z) :
  0 < res R -> (t / res R <? m) = (t <? m * res R).
Proof.
  intros Hr.
  destruct (Z.ltb_spec (t / res R) m) as [L|L];
    destruct (Z.ltb_spec t (m * res R)) as [L'|L']; try reflexivity; exfalso;
    pose proof (Z.div_mod t (res R) ltac:(lia));
    pose proof (Z.mod_pos_bound t (res R) Hr); nia.
Qed.

(** The loop touches nothing but the clock. *)
Lemma busyLoop_frame (n : nat) (start ms : Z) (w : World) :
  let r := busyLoop R n start ms w in
  timer (snd r) = timer w /\ listening (snd r) = listening w /\
  draws (snd r) = draws w /\ trace (snd r) = trace w.
Proof.
  cbv zeta. revert w. induction n as [|n IH]; intros w; cbn.
  - repeat split.
  - unfold bind, Date_now.
    destruct (now w / res R - start <? ms).
    + match goal with |- context [busyLoop R n start ms ?w1] =>
        destruct (IH w1) as (A & B & C & D) end.
      cbn in *. repeat split; assumption.
    + cbn. repeat split.
Qed.

(** With enough turns the loop ends, and it ends after the tick at which
    the clock first shows [start + ms]. *)
Lemma busyLoop_returns (n : nat) (start ms : Z) (w : World) :
  0 < res R -> (forall t, 0 < pace R t) ->
  Z.max 0 ((start + ms) * res R - now w) < Z.of_nat n ->
  exists w',
    busyLoop R n start ms w = (Return tt, w') /\
    (start + ms) * res R < now w' /\ now w < now w'.
Proof.
  intros Hr Hp. revert w. induction n as [|n IH]; intros w Hn; [lia|].
  cbn [busyLoop]. unfold bind at 1. unfold Date_now at 1.
  replace (now w / res R - start <? ms) with (now w <? (start + ms) * res R).
  2:{ rewrite <- reading_lt by assumption.
      destruct (Z.ltb_spec (now w / res R - start) ms);
        destruct (Z.ltb_spec (now w / res R) (start + ms)); lia. }
  pose proof (Hp (now w)) as Hpw.
  destruct (Z.ltb_spec (now w) ((start + ms) * res R)) as [L|L].
  - edestruct IH as (w' & E & A & B); [|exists w'; rewrite E].
    + cbn. lia.
    + cbn in B. repeat split; try assumption. lia.
  - eexists. split; [reflexivity|]. cbn. lia.
Qed.

(** When a clock call never takes more than [P] ticks, the loop does not
    overshoot by more than two calls. *)
Lemma busyLoop_upper (P : Z) (n : nat) (start ms : Z) (w w' : World) :
  0 < res R -> (forall t, pace R t <= P) ->
  busyLoop R n start ms w = (Return tt, w') ->
  now w' <= Z.max (now w) ((start + ms) * res R - 1 + P) + P.
Proof.
  intros Hr Hp. revert w. induction n as [|n IH]; intros w E;
    [discriminate|].
  cbn [busyLoop] in E. unfold bind at 1 in E. unfold Date_now at 1 in E.
  replace (now w / res R - start <? ms) with (now w <? (start + ms) * res R) in E.
  2:{ rewrite <- reading_lt by assumption.
      destruct (Z.ltb_spec (now w / res R - start) ms);
        destruct (Z.ltb_spec (now w / res R) (start + ms)); lia. }
  pose proof (Hp (now w)) as Hpw.
  destruct (Z.ltb_spec (now w) ((start + ms) * res R)) as [L|L].
  - apply IH in E. cbn in E. lia.
  - injection E as <-. cbn. lia.
Qed.

(** ** busyWait *)

Lemma busyWait_frame (ms : Z) (w : World) :
  let r := busyWait R ms w in
  timer (snd r) = timer w /\ listening (snd r) = listening w /\
  draws (snd r) = draws w /\ trace (snd r) = trace w.
Proof.
  cbv zeta. unfold busyWait, bind at 1, Date_now at 1.
  match goal with |- context [busyLoop R ?n ?s ms ?w1] =>
    destruct (busyLoop_frame n s ms w1) as (A & B & C & D) end.
  cbn in *. repeat split; assumption.
Qed.

(** [busyWait(ms)] returns, and by then the clock has advanced by at
    least [ms] milliseconds. *)
Lemma busyWait_returns (ms : Z) (w : World) :
  0 < res R -> (forall t, 0 < pace R t) ->
  Z.max 0 (ms * res R) < Z.of_nat (fuel R) ->
  exists w',
    busyWait R ms w = (Return tt, w') /\
    clock R w + ms <= clock R w' /\ now w < now w'.
Proof.
  intros Hr Hp Hf. unfold busyWait, bind at 1, Date_now at 1.
  pose proof (Hp (now w)) as Hpw.
  pose proof (Z.div_mod (now w) (res R) ltac:(lia)) as Hdm.
  pose proof (Z.mod_pos_bound (now w) (res R) Hr) as Hmb.
  edestruct (busyLoop_returns (fuel R) (now w / res R) ms) as (w' & E & A & B);
    [exact Hr | exact Hp | | exists w'; rewrite E].
  - cbn. nia.
  - cbn in B. repeat split; [|lia].
    unfold clock. apply Z.div_le_lower_bound; [assumption|]. nia.
Qed.

Lemma busyWait_upper (P ms : Z) (w w' : World) :
  0 < res R -> (forall t, pace R t <= P) ->
  busyWait R ms w = (Return tt, w') ->
  now w' <= now w + Z.max 0 (ms * res R - 1) + 2 * P.
Proof.
  intros Hr Hp E. unfold busyWait, bind at 1, Date_now at 1 in E.
  apply (busyLoop_upper P) in E; try assumption. cbn in E.
  pose proof (Hp (now w)) as Hpw.
  pose proof (Z.div_mod (now w) (res R) ltac:(lia)) as Hdm.
  pose proof (Z.mod_pos_bound (now w) (res R) Hr) as Hmb.
  nia.
Qed.

(** ** The /lucky handler *)

(** One run of the handler, start to end. *)
Lemma lucky_run (req : Request) (w : World) :
  0 < res R -> (forall t, 0 < pace R t) ->
  5000 * res R < Z.of_nat (fuel R) ->
  exists t,
    now w < t /\ clock R w + 5000 <= t / res R /\
    lucky R req w =
    (Return tt,
     {| now := t; timer := timer w; listening := listening w;
        draws := (draws w ++ [t])%list;
        trace := (trace w ++
                  [ (now w, ConsoleLog (line_pod R));
                    (now w, ConsoleLog (line_received R));
                    (t, ConsoleLog
                          (line_generated R (lucky_of (random R (length (draws w))))));
                    (t, Reply req 200
                          (lucky_body (lucky_of (random R (length (draws w)))))) ])%list
     |}).
Proof.
  intros Hr Hp Hf.
  unfold lucky, bind at 1, console_log at 1, emit at 1, modify at 1.
  unfold bind at 1, console_log at 1, emit at 1, modify at 1.
  unfold bind at 1.
  match goal with |- context [busyWait R 5000 ?w2] =>
    destruct (busyWait_returns 5000 w2) as (w3 & E & A & B);
      [assumption | assumption | lia |];
    pose proof (busyWait_frame 5000 w2) as F;
    rewrite E in *; cbv zeta in F; cbn [snd] in F;
    destruct F as (F1 & F2 & F3 & F4)
  end.
  cbn in A, B, F1, F2, F3, F4. unfold clock in A. cbn in A.
  exists (now w3). repeat split; [assumption | exact A |].
  unfold bind, Math_random, console_log, res_json, emit, modify. cbn.
  rewrite F1, F2, F3, F4. rewrite <- !app_assoc. reflexivity.
Qed.

Lemma lucky_upper (P : Z) (req : Request) (w w' : World) :
  0 < res R -> (forall t, pace R t <= P) ->
  lucky R req w = (Return tt, w') ->
  now w' <= now w + 5000 * res R + 2 * P.
Proof.
  intros Hr Hp.
  unfold lucky, bind at 1, console_log at 1, emit at 1, modify at 1.
  unfold bind at 1, console_log at 1, emit at 1, modify at 1.
  unfold bind at 1.
  match goal with |- context [busyWait R 5000 ?w2] =>
    destruct (busyWait R 5000 w2) as [[[] | e | c |] w3] eqn:E
  end; try discriminate.
  apply (busyWait_upper P) in E; try assumption. cbn [now] in E.
  unfold bind, Math_random, console_log, res_json, emit, modify.
  cbn -[Z.mul Z.add]. intros [= <-]. cbn [now]. lia.
Qed.

(** ** The lucky number *)

Lemma answers_app (w : World) (l : list (Z * Event)) (t : Z) (ds : list Z) :
  answers {| now := t; timer := timer w; listening := listening w;
             draws := ds; trace := (trace w ++ l)%list |}
  = (answers w ++ filter is_answer l)%list.
Proof. unfold answers. cbn. apply filter_app. Qed.


(** ** The event loop *)

Lemma served_in_app (l1 l2 : list (Z * Event)) :
  served_in (l1 ++ l2) = (served_in l1 ++ served_in l2)%list.
Proof.
  induction l1 as [|[tick e] l1 IH]; [reflexivity|].
  cbn. destruct e; cbn; now rewrite IH.
Qed.

(** Handlers leave the timer and the listener alone. *)
Lemma lucky_frame (req : Request) (w : World) :
  timer (snd (lucky R req w)) = timer w /\
  listening (snd (lucky R req w)) = listening w.
Proof.
  destruct (lucky R req w) as [o w'] eqn:E. cbn [snd]. revert E.
  unfold lucky, bind at 1, console_log at 1, emit at 1, modify at 1.
  unfold bind at 1, console_log at 1, emit at 1, modify at 1.
  unfold bind at 1.
  match goal with |- context [busyWait R 5000 ?w2] =>
    pose proof (busyWait_frame 5000 w2) as F; cbv zeta in F;
    destruct (busyWait R 5000 w2) as [[[] | e | c |] w3]
  end; cbn in F; destruct F as (F1 & F2 & _); cbn;
    intros [= <- <-]; cbn; split; assumption.
Qed.

Lemma dispatch_frame (req : Request) (w : World) :
  timer (snd (dispatch R req w)) = timer w /\
  listening (snd (dispatch R req w)) = listening w.
Proof.
  unfold dispatch, routes. cbn [find_route].
  destruct (String.eqb "/lucky" (path req)); [apply lucky_frame|].
  destruct (String.eqb "/ping" (path req)); cbn; split; reflexivity.
Qed.

(** What the loop does before it looks at a request that arrived at tick
    [a]: from that tick on the port is bound if the startup delay is over,
    and nothing changes otherwise. *)
Lemma fire_due_spec (t0 a : Z) (w : World) :
  0 < res R -> startup_invariant R t0 w ->
  (t0 + 5000 * res R <= a ->
   exists wf,
     fire_due R a w = (Return tt, wf) /\
     timer wf = None /\ listening wf = Some (t0 + 5000 * res R) /\
     Z.max a (now wf) = Z.max a (now w) /\
     draws wf = draws w /\ answers wf = answers w /\ served wf = served w) /\
  (a < t0 + 5000 * res R -> fire_due R a w = (Return tt, w)).
Proof.
  intros Hr [(Ht & Hl & Hn) | (Ht & Hl)]; unfold fire_due; rewrite Ht.
  - split; intros Ha.
    + destruct (Z.leb_spec (t0 + 5000 * res R) (Z.max a (now w))); [|lia].
      eexists. split; [reflexivity|]. cbn -[Z.mul Z.add Z.max].
      unfold answers, served. cbn -[Z.mul Z.add Z.max].
      rewrite !filter_app, !served_in_app. cbn -[Z.mul Z.add Z.max].
      rewrite !app_nil_r. repeat split; [f_equal|]; lia.
    + destruct (Z.leb_spec (t0 + 5000 * res R) (Z.max a (now w))); [lia|].
      reflexivity.
  - split; intros Ha; [|reflexivity].
    exists w. repeat split; assumption.
Qed.

(** A request that arrives once the startup delay is over reaches its
    handler, at the later of its arrival and the tick the loop is free. *)
Lemma deliver_accepted (t0 : Z) (req : Request) (w : World) :
  0 < res R -> startup_invariant R t0 w ->
  t0 + 5000 * res R <= arrived req ->
  exists wm,
    deliver R req w = dispatch R req wm /\
    timer wm = None /\ listening wm = Some (t0 + 5000 * res R) /\
    now wm = Z.max (arrived req) (now w) /\
    draws wm = draws w /\ answers wm = answers w /\ served wm = served w /\
    trace wm = trace (snd (fire_due R (arrived req) w)).
Proof.
  intros Hr Hi Ha.
  destruct (proj1 (fire_due_spec t0 (arrived req) w Hr Hi) Ha)
    as (wf & E & A & B & C & D & F & G).
  unfold deliver, bind at 1. rewrite E.
  unfold bind at 1, idle_until, modify.
  unfold bind at 1, gets, accepted. cbn [listening]. rewrite B.
  destruct (Z.leb_spec (t0 + 5000 * res R) (arrived req)); [|lia].
  eexists. split; [reflexivity|]. cbn [now timer listening draws trace snd].
  repeat split; assumption.
Qed.

(** A request that arrives earlier is refused, and nothing else happens. *)
Lemma deliver_refused (t0 : Z) (req : Request) (w : World) :
  0 < res R -> startup_invariant R t0 w ->
  arrived req < t0 + 5000 * res R ->
  deliver R req w =
  (Return tt,
   {| now := Z.max (arrived req) (now w); timer := timer w;
      listening := listening w; draws := draws w;
      trace := (trace w ++ [(Z.max (arrived req) (now w), Refused req)])%list |}).
Proof.
  intros Hr Hi Ha.
  unfold deliver, bind at 1.
  rewrite (proj2 (fire_due_spec t0 (arrived req) w Hr Hi) Ha).
  unfold bind at 1, idle_until, modify.
  unfold bind at 1, gets, accepted. cbn [listening].
  destruct Hi as [(Ht & Hl & Hn) | (Ht & Hl)]; rewrite Hl.
  - reflexivity.
  - destruct (Z.leb_spec (t0 + 5000 * res R) (arrived req)); [lia|].
    reflexivity.
Qed.

Lemma deliver_invariant (t0 : Z) (req : Request) (w : World) :
  0 < res R -> startup_invariant R t0 w ->
  startup_invariant R t0 (snd (deliver R req w)).
Proof.
  intros Hr Hi.
  destruct (Z.le_gt_cases (t0 + 5000 * res R) (arrived req)) as [Ha|Ha].
  - destruct (deliver_accepted t0 req w Hr Hi Ha) as (wm & E & A & B & _).
    rewrite E. destruct (dispatch_frame req wm) as [F1 F2].
    right. split; congruence.
  - rewrite (deliver_refused t0 req w Hr Hi Ha). cbn [snd].
    destruct Hi as [(Ht & Hl & Hn) | (Ht & Hl)].
    + left. cbn [now timer listening]. repeat split; try assumption. lia.
    + right. cbn [now timer listening]. split; assumption.
Qed.

Lemma reachable_invariant (t0 : Z) (w : World) :
  0 < res R -> reachable R t0 w -> startup_invariant R t0 w.
Proof.
  intros Hr Hw. induction Hw as [w E | w req w' _ IH E].
  - unfold boot, main, startupDelay, fresh, bind, console_log, emit, modify,
      setTimeout in E.
    injection E as <-. left. cbn -[Z.mul Z.add]. repeat split. lia.
  - pose proof (deliver_invariant t0 req w Hr IH) as Hi. now rewrite E in Hi.
Qed.

(** ** Readiness *)

Lemma deliver_ping (t0 a : Z) (w : World) :
  0 < res R -> startup_invariant R t0 w ->
  exists w',
    deliver R {| arrived := a; path := "/ping" |} w = (Return tt, w') /\
    ((t0 + 5000 * res R <= a /\ state_at w' a = Ready /\
      answers w' =
      (answers w ++
       [(Z.max a (now w), Reply {| arrived := a; path := "/ping" |} 200 ping_body)])%list)
     \/
     (a < t0 + 5000 * res R /\ state_at w' a = Starting /\
      answers w' =
      (answers w ++
       [(Z.max a (now w), Refused {| arrived := a; path := "/ping" |})])%list)).
Proof.
  intros Hr Hi.
  destruct (Z.le_gt_cases (t0 + 5000 * res R) a) as [Ha|Ha].
  - destruct (deliver_accepted t0 {| arrived := a; path := "/ping" |} w Hr Hi Ha)
      as (wm & E & A & B & C & D & F & G & _).
    rewrite E. eexists. split; [reflexivity|]. left.
    cbn [arrived] in C. split; [assumption|].
    unfold state_at, answers. cbn [listening trace now]. rewrite B.
    destruct (Z.leb_spec (t0 + 5000 * res R) a); [|lia].
    split; [reflexivity|].
    rewrite filter_app. cbn. fold (answers wm). now rewrite F, C.
  - rewrite (deliver_refused t0 {| arrived := a; path := "/ping" |} w Hr Hi Ha).
    eexists. split; [reflexivity|]. right. split; [assumption|].
    unfold state_at, answers. cbn [listening trace arrived].
    rewrite filter_app. cbn [filter is_answer snd app].
    split; [|reflexivity].
    destruct Hi as [(Ht & Hl & Hn) | (Ht & Hl)]; rewrite Hl; [reflexivity|].
    destruct (Z.leb_spec (t0 + 5000 * res R) a); [lia | reflexivity].
Qed.

(** C4: for a process started at tick [t0], a [GET /ping] that arrives at
    tick [a] is answered [200 {status: ok}] exactly when the startup delay
    of 5000 ms is over at [a], which is exactly when the service is
    [Ready] at [a]; a [/ping] that arrives earlier finds the port unbound
    and gets no reply at all. *)
Theorem C4_ping_ok_iff_ready (t0 a : Z) (w : World) :
  0 < res R -> reachable R t0 w ->
  exists w',
    deliver R {| arrived := a; path := "/ping" |} w = (Return tt, w') /\
    reachable R t0 w' /\
    ((t0 + 5000 * res R <= a /\ state_at w' a = Ready /\
      answers w' =
      (answers w ++
       [(Z.max a (now w), Reply {| arrived := a; path := "/ping" |} 200 ping_body)])%list)
     \/
     (a < t0 + 5000 * res R /\ state_at w' a = Starting /\
      answers w' =
      (answers w ++
       [(Z.max a (now w), Refused {| arrived := a; path := "/ping" |})])%list)).
Proof.
  intros Hr Hw.
  destruct (deliver_ping t0 a w Hr (reachable_invariant t0 w Hr Hw)) as (w' & E & H).
  exists w'. split; [exact E|]. split; [|exact H].
  eapply reach_deliver; eassumption.
Qed.

(** ** Head-of-line blocking *)

Lemma deliver_lucky (t0 a : Z) (w : World) :
  0 < res R -> (forall t, 0 < pace R t) ->
  5000 * res R < Z.of_nat (fuel R) ->
  startup_invariant R t0 w ->
  t0 + 5000 * res R <= a ->
  exists w',
    deliver R {| arrived := a; path := "/lucky" |} w = (Return tt, w') /\
    served w' = (served w ++ [(now w', {| arrived := a; path := "/lucky" |})])%list /\
    answers w' =
    (answers w ++
     [(now w', Reply {| arrived := a; path := "/lucky" |} 200
                 (lucky_body (lucky_of (random R (length (draws w))))))])%list /\
    Z.max a (now w) / res R + 5000 <= now w' / res R /\
    Z.max a (now w) < now w'.
Proof.
  intros Hr Hp Hf Hi Ha.
  destruct (deliver_accepted t0 {| arrived := a; path := "/lucky" |} w Hr Hi Ha)
    as (wm & E & A & B & C & D & F & G & _).
  cbn [arrived] in C. rewrite E.
  unfold dispatch, routes. cbn [find_route path String.eqb Ascii.eqb Bool.eqb].
  destruct (lucky_run {| arrived := a; path := "/lucky" |} wm Hr Hp Hf)
    as (t & T1 & T2 & E2).
  rewrite E2. eexists. split; [reflexivity|].
  cbn [now]. unfold clock in T2. rewrite C in *.
  repeat split; try assumption.
  - unfold served. cbn [trace]. rewrite served_in_app. cbn.
    fold (served wm). now rewrite G.
  - rewrite answers_app. cbn. now rewrite F, D.
Qed.

Lemma deliver_lucky_upper (P t0 a : Z) (w w' : World) :
  0 < res R -> (forall t, pace R t <= P) ->
  startup_invariant R t0 w ->
  t0 + 5000 * res R <= a ->
  deliver R {| arrived := a; path := "/lucky" |} w = (Return tt, w') ->
  now w' <= Z.max a (now w) + 5000 * res R + 2 * P.
Proof.
  intros Hr Hp Hi Ha.
  destruct (deliver_accepted t0 {| arrived := a; path := "/lucky" |} w Hr Hi Ha)
    as (wm & E & A & B & C & _).
  cbn [arrived] in C. rewrite E.
  unfold dispatch, routes. cbn [find_route path String.eqb Ascii.eqb Bool.eqb].
  intros E2. apply (lucky_upper P) in E2; try assumption. lia.
Qed.

Lemma serve_lucky (P t0 a : Z) (reqs : list Request) :
  0 < res R -> (forall t, 0 < pace R t <= P) ->
  5000 * res R < Z.of_nat (fuel R) ->
  t0 + 5000 * res R <= a ->
  Forall (fun req => req = {| arrived := a; path := "/lucky" |}) reqs ->
  forall w, startup_invariant R t0 w ->
  exists w' ts,
    serve R reqs w = (Return tt, w') /\
    startup_invariant R t0 w' /\
    served w' = (served w ++ combine ts reqs)%list /\
    length ts = length reqs /\
    paced R P (Z.max a (now w)) ts /\
    Forall (fun t => t <= now w') ts /\
    now w <= now w'.
Proof.
  intros Hr Hp Hf Ha Hall.
  induction Hall as [|req rest -> _ IH]; intros w Hi.
  - exists w, []. cbn. rewrite app_nil_r. repeat split; try assumption.
    + constructor.
    + lia.
  - destruct (deliver_lucky t0 a w Hr (fun t => proj1 (Hp t)) Hf Hi Ha)
      as (w1 & E & S1 & _ & L & Lt).
    pose proof (deliver_lucky_upper P t0 a w w1 Hr (fun t => proj2 (Hp t)) Hi Ha E)
      as U.
    pose proof (deliver_invariant t0 {| arrived := a; path := "/lucky" |} w Hr Hi)
      as Hi1.
    rewrite E in Hi1. cbn [snd] in Hi1.
    destruct (IH w1 Hi1) as (w' & ts & E' & Hi' & S' & Len & Pc & Fa & Mono).
    exists w', (now w1 :: ts).
    cbn [serve]. unfold bind at 1. rewrite E, E'.
    replace (Z.max a (now w1)) with (now w1) in Pc by lia.
    repeat split; try assumption.
    + rewrite S', S1, <- app_assoc. reflexivity.
    + cbn. now rewrite Len.
    + constructor; [lia | assumption].
    + lia.
Qed.

(** C7: every run of the [/lucky] handler returns, and it waits first: the
    number is drawn, the line that prints it is logged and the reply is
    sent at one and the same tick [t], by which the millisecond clock that
    the handler reads has advanced by at least 5000 since the handler
    began (in ticks: by more than 4999 ms); before that tick nothing but
    the two opening log lines has happened.  Seen from outside: a
    [GET /lucky] that arrives at tick [a] at a process whose port is bound
    is answered, and not before the clock shows 5000 ms more than at
    [a]. *)
Theorem C7_lucky_waits_first (req : Request) (w : World) :
  0 < res R -> (forall t, 0 < pace R t) ->
  5000 * res R < Z.of_nat (fuel R) ->
  (exists w' t n,
      lucky R req w = (Return tt, w') /\
      clock R w + 5000 <= t / res R /\
      now w + 4999 * res R < t /\
      now w' = t /\
      draws w' = (draws w ++ [t])%list /\
      n = lucky_of (random R (length (draws w))) /\
      trace w' = (trace w ++
                  [ (now w, ConsoleLog (line_pod R));
                    (now w, ConsoleLog (line_received R));
                    (t, ConsoleLog (line_generated R n));
                    (t, Reply req 200 (lucky_body n)) ])%list) /\
  (forall t0 a,
      reachable R t0 w -> t0 + 5000 * res R <= a ->
      exists w' t n,
        deliver R {| arrived := a; path := "/lucky" |} w = (Return tt, w') /\
        answers w' =
        (answers w ++
         [(t, Reply {| arrived := a; path := "/lucky" |} 200 (lucky_body n))])%list /\
        a / res R + 5000 <= t / res R).
Proof.
  intros Hr Hp Hf. split.
  - destruct (lucky_run req w Hr Hp Hf) as (t & A & B & E).
    eexists. exists t. eexists. split; [exact E|].
    cbn [now draws trace]. repeat split; [exact B|].
    unfold clock in B.
    pose proof (Z.div_mod (now w) (res R) ltac:(lia)).
    pose proof (Z.mod_pos_bound (now w) (res R) Hr).
    pose proof (Z.div_mod t (res R) ltac:(lia)).
    pose proof (Z.mod_pos_bound t (res R) Hr).
    nia.
  - intros t0 a Hw Ha.
    destruct (deliver_lucky t0 a w Hr Hp Hf (reachable_invariant t0 w Hr Hw) Ha)
      as (w' & E & _ & An & L & _).
    exists w', (now w'). eexists. split; [exact E|]. split; [exact An|].
    assert (a / res R <= Z.max a (now w) / res R)
      by (apply Z.div_le_mono; lia).
    lia.
Qed.

(** C10: the loop takes up one request at a time.  [N] requests for
    [/lucky] that arrive together at tick [a] (the port being bound) are
    answered one after the other: each reply comes at least 5000 ms on the
    clock, and at most [5000 * res + 2 * P] ticks, after the reply before
    it (the first one after the tick at which the loop took it up), where
    [P] bounds the time a clock call takes; and a [/ping] is answered only
    when all the [/lucky] requests ahead of it are done, however early it
    arrived. *)
Theorem C10_head_of_line_blocking (P t0 a b : Z) (reqs : list Request) (w : World) :
  0 < res R -> (forall t, 0 < pace R t <= P) ->
  5000 * res R < Z.of_nat (fuel R) ->
  reachable R t0 w ->
  t0 + 5000 * res R <= a -> t0 + 5000 * res R <= b ->
  Forall (fun req => req = {| arrived := a; path := "/lucky" |}) reqs ->
  exists w1 w2 ts tp,
    serve R reqs w = (Return tt, w1) /\
    served w1 = (served w ++ combine ts reqs)%list /\
    length ts = length reqs /\
    paced R P (Z.max a (now w)) ts /\
    deliver R {| arrived := b; path := "/ping" |} w1 = (Return tt, w2) /\
    answers w2 =
    (answers w1 ++ [(tp, Reply {| arrived := b; path := "/ping" |} 200 ping_body)])%list /\
    Forall (fun t => t <= tp) ts.
Proof.
  intros Hr Hp Hf Hw Ha Hb Hall.
  pose proof (reachable_invariant t0 w Hr Hw) as Hi.
  destruct (serve_lucky P t0 a reqs Hr Hp Hf Ha Hall w Hi)
    as (w1 & ts & E & Hi1 & S1 & Len & Pc & Fa & Mono).
  destruct (deliver_ping t0 b w1 Hr Hi1) as (w2 & E2 & [(_ & _ & A) | (Hlt & _)]);
    [|lia].
  exists w1, w2, ts, (Z.max b (now w1)).
  repeat split; try assumption.
  eapply Forall_impl; [|exact Fa]. cbn. intros t Ht. lia.
Qed.

End BackendFacts.

(* ===================================================================== *)
(** * The backend facts on the sample runtime                             *)
(* ===================================================================== *)

Section BackendSample.
Import JS Backend.

Lemma sample_ready_reachable : reachable sample 0 sample_ready.
Proof.
  eapply reach_deliver with (req := {| arrived := 5000; path := "/ping" |}).
  - apply reach_boot. reflexivity.
  - vm_compute. reflexivity.
Qed.

Lemma C7_lucky_waits_first_witness :
  (exists w' t n,
      lucky sample {| arrived := 6000; path := "/lucky" |} sample_ready
      = (Return tt, w') /\
      clock sample sample_ready + 5000 <= t / res sample /\
      now sample_ready + 4999 * res sample < t /\
      now w' = t /\
      draws w' = (draws sample_ready ++ [t])%list /\
      n = lucky_of (random sample (length (draws sample_ready))) /\
      trace w' = (trace sample_ready ++
                  [ (now sample_ready, ConsoleLog (line_pod sample));
                    (now sample_ready, ConsoleLog (line_received sample));
                    (t, ConsoleLog (line_generated sample n));
                    (t, Reply {| arrived := 6000; path := "/lucky" |} 200
                          (lucky_body n)) ])%list) /\
  (exists w' t n,
      deliver sample {| arrived := 6000; path := "/lucky" |} sample_ready
      = (Return tt, w') /\
      answers w' =
      (answers sample_ready ++
       [(t, Reply {| arrived := 6000; path := "/lucky" |} 200 (lucky_body n))])%list /\
      6000 / res sample + 5000 <= t / res sample).
Proof.
  assert (Hr : 0 < res sample) by reflexivity.
  assert (Hp : forall t, 0 < pace sample t) by (intros t; reflexivity).
  assert (Hf : 5000 * res sample < Z.of_nat (fuel sample))
    by (vm_compute; reflexivity).
  split.
  - exact (proj1 (C7_lucky_waits_first sample
                    {| arrived := 6000; path := "/lucky" |} sample_ready Hr Hp Hf)).
  - apply (proj2 (C7_lucky_waits_first sample
                    {| arrived := 6000; path := "/lucky" |} sample_ready Hr Hp Hf)
             0 6000).
    + exact sample_ready_reachable.
    + vm_compute. discriminate.
Defined.

Lemma C4_ping_ok_iff_ready_witness :
  exists w',
    deliver sample {| arrived := 6000; path := "/ping" |} sample_ready
    = (Return tt, w') /\
    reachable sample 0 w' /\
    ((0 + 5000 * res sample <= 6000 /\ state_at w' 6000 = Ready /\
      answers w' =
      (answers sample_ready ++
       [(Z.max 6000 (now sample_ready),
         Reply {| arrived := 6000; path := "/ping" |} 200 ping_body)])%list)
     \/
     (6000 < 0 + 5000 * res sample /\ state_at w' 6000 = Starting /\
      answers w' =
      (answers sample_ready ++
       [(Z.max 6000 (now sample_ready),
         Refused {| arrived := 6000; path := "/ping" |})])%list)).
Proof.
  apply (C4_ping_ok_iff_ready sample 0 6000 sample_ready).
  - reflexivity.
  - exact sample_ready_reachable.
Defined.



Lemma C10_head_of_line_blocking_witness :
  exists w1 w2 ts tp,
    serve sample
      [ {| arrived := 6000; path := "/lucky" |};
        {| arrived := 6000; path := "/lucky" |};
        {| arrived := 6000; path := "/lucky" |} ] sample_ready = (Return tt, w1) /\
    served w1 =
    (served sample_ready ++
     combine ts [ {| arrived := 6000; path := "/lucky" |};
                  {| arrived := 6000; path := "/lucky" |};
                  {| arrived := 6000; path := "/lucky" |} ])%list /\
    length ts = 3%nat /\
    paced sample 1000 (Z.max 6000 (now sample_ready)) ts /\
    deliver sample {| arrived := 6001; path := "/ping" |} w1 = (Return tt, w2) /\
    answers w2 =
    (answers w1 ++
     [(tp, Reply {| arrived := 6001; path := "/ping" |} 200 ping_body)])%list /\
    Forall (fun t => t <= tp) ts.
Proof.
  apply (C10_head_of_line_blocking sample 1000 0 6000 6001
           [ {| arrived := 6000; path := "/lucky" |};
             {| arrived := 6000; path := "/lucky" |};
             {| arrived := 6000; path := "/lucky" |} ] sample_ready).
  - reflexivity.
  - intros t. cbn. lia.
  - vm_compute. reflexivity.
  - exact sample_ready_reachable.
  - cbn. lia.
  - cbn. lia.
  - repeat constructor.
Defined.

(** C3, at the failing input: the backend registers no [/crash] route.
    A [GET /crash] falls through to the final 404 handler, the handler
    returns normally and the process goes on: on the sample runtime a
    [/ping] one second later is answered as before. *)
Theorem C3_crash_route_missing :
  (forall (R : Runtime) (a : Z) (w : World),
      dispatch R {| arrived := a; path := "/crash" |} w =
      (Return tt,
       {| now := now w; timer := timer w; listening := listening w;
          draws := draws w;
          trace := (trace w ++
                    [(now w, Reply {| arrived := a; path := "/crash" |} 404
                               (BText "Cannot GET /crash"))])%list |})) /\
  fst (serve sample [ {| arrived := 6000; path := "/crash" |};
                      {| arrived := 7000; path := "/ping" |} ] sample_ready)
  = Return tt /\
  answers (snd (serve sample [ {| arrived := 6000; path := "/crash" |};
                               {| arrived := 7000; path := "/ping" |} ] sample_ready))
  = (answers sample_ready ++
     [ (6000, Reply {| arrived := 6000; path := "/crash" |} 404
                (BText "Cannot GET /crash"));
       (7000, Reply {| arrived := 7000; path := "/ping" |} 200 ping_body) ])%list.
Proof.
  split; [|split].
  - intros R a w. reflexivity.
  - vm_compute. reflexivity.
  - vm_compute. reflexivity.
Qed.

End BackendSample.

(* ===================================================================== *)
(** * More on the frontend                                                *)
(* ===================================================================== *)

Section FrontendMore.
Import JS Frontend.

(** Run the console and reply statements of a handler. *)
Ltac step_js :=
  cbn;
  unfold res_send, console_error_obj, console_error, console_log, emit,
    modify, bind, ret, throw, never;
  cbn;
  rewrite <- ?app_assoc; cbn.

Lemma ping_is_not_lucky (base : string) :
  ends_with "/lucky" (base ++ "/ping") = false.
Proof.
  induction base as [|c b IH]; [reflexivity|].
  cbn [String.append ends_with]. rewrite IH, orb_false_r.
  apply String.eqb_neq. intros E.
  destruct b as [|c2 b2].
  - cbn in E. injection E as _ E. discriminate E.
  - apply (f_equal String.length) in E. cbn in E.
    rewrite length_app in E. cbn in E. lia.
Qed.

Lemma append_inj (base x y : string) : base ++ x = base ++ y -> x = y.
Proof.
  induction base as [|c b IH]; cbn; [trivial|].
  intros [= E]. now apply IH.
Qed.

(** X1: the probe address is the forwarder's address itself exactly when
    [LUCKY_API_URL] does not end with [/lucky]; and whatever the
    configuration, the probe address never ends with [/lucky]. *)
Theorem X1_probe_url_differs (H : Host) :
  (PING_URL H = LUCKY_API_URL H <-> ends_with "/lucky" (LUCKY_API_URL H) = false) /\
  ends_with "/lucky" (PING_URL H) = false.
Proof.
  unfold PING_URL.
  destruct (ends_with "/lucky" (LUCKY_API_URL H)) eqn:E.
  - apply ends_with_suffix in E. destruct E as [base ->].
    rewrite replace_at_end_suffix. split; [|apply ping_is_not_lucky].
    split; [|discriminate].
    intros F. apply append_inj in F. discriminate F.
  - rewrite (replace_at_end_other _ _ _ E). split; [|exact E].
    split; reflexivity.
Qed.

(** X2: the probe keeps every failure to itself.  It ends in one of three
    ways only, and which one is decided by the outcome of its fetch: with
    [true] and nothing written, when a success status comes with the
    status [ok]; waiting for ever with nothing written, when the fetch or
    the body never settles; and in every other case with [false] and
    exactly one line on the error console, the fixed text followed by the
    message of the error that was caught (that of the rejection, [Ping
    failed], the [TypeError]'s for a [null] body, or [Ping returned
    unexpected status]).  No exception and no exit leaves it. *)
Theorem X2_probe_absorbs_failures (H : Host) (t : Trace) :
  let probe := fetch H (PING_URL H) (Some 2000) in
  let failed msg :=
    checkLuckyNumberApp H t =
    (Return false,
     (t ++ [ConsoleError
              (spaced "Could not reach lucky-number-app /ping endpoint:" msg)])%list) in
  ((forall e, probe = Rejects e -> failed (message e)) /\
   (forall r, probe = Resolves r -> ok r = false -> failed "Ping failed") /\
   (forall r e, probe = Resolves r -> ok r = true -> json r = JsonRejects e ->
      failed (message e)) /\
   (forall r, probe = Resolves r -> ok r = true -> json r = JsonResolves JNull ->
      failed (message (null_access "status"))) /\
   (forall r data, probe = Resolves r -> ok r = true -> json r = JsonResolves data ->
      data <> JNull -> ~ status_is_ok data ->
      failed "Ping returned unexpected status") /\
   (forall r data, probe = Resolves r -> ok r = true -> json r = JsonResolves data ->
      status_is_ok data -> checkLuckyNumberApp H t = (Return true, t)) /\
   (probe = NeverSettles \/
    (exists r, probe = Resolves r /\ ok r = true /\ json r = JsonNeverSettles) ->
    checkLuckyNumberApp H t = (Pending, t))) /\
  calm (fst (checkLuckyNumberApp H t)).
Proof.
  cbv zeta. split; [exact (check_table H t)|].
  destruct (check_cases H t) as [E | [[err E] | E]]; rewrite E; exact I.
Qed.

(** X3: the start of the frontend ends in one of four ways.  The gate
    proceeds and the port is bound: the listener is there and the start is
    logged, with nothing on the error console.  The gate proceeds and the
    port cannot be bound: nothing is logged, nothing listens, and the
    error of [app.listen] leaves the script uncaught.  The gate aborts:
    the one error line of the probe, the line that the start is aborted,
    and exit code 1.  The probe never settles: nothing happens at all.
    So the listener is bound exactly when the gate proceeds and the port
    can be bound. *)
Theorem X3_main_outcomes (H : Host) :
  ((decision (checkLuckyNumberApp H []) = Some Proceed /\
    listen H (PORT H) = None /\
    main H [] =
    (Return tt,
     [Listen (PORT H); ConsoleLog ("Lucky Web App running on port " ++ PORT H)]))
   \/
   (decision (checkLuckyNumberApp H []) = Some Proceed /\
    exists e, listen H (PORT H) = Some e /\ main H [] = (Throw e, []))
   \/
   (decision (checkLuckyNumberApp H []) = Some Abort /\
    main H [] =
    (Exit 1,
     (snd (checkLuckyNumberApp H []) ++
      [ConsoleError "Startup aborted: lucky-number-app is not reachable."])%list) /\
    exists msg,
      snd (checkLuckyNumberApp H []) =
      [ConsoleError (spaced "Could not reach lucky-number-app /ping endpoint:" msg)])
   \/
   (decision (checkLuckyNumberApp H []) = None /\ main H [] = (Pending, []))) /\
  (listening (snd (main H [])) = true <->
   decision (checkLuckyNumberApp H []) = Some Proceed /\ listen H (PORT H) = None).
Proof.
  unfold decision, main, app_listen, bind.
  destruct (check_cases H []) as [E | [[err E] | E]]; rewrite E; cbn.
  - destruct (listen H (PORT H)) as [e|] eqn:Hb; cbn.
    + split; [right; left; split; [reflexivity | now exists e]|].
      split; [discriminate | intros [_ F]; discriminate F].
    + split; [left; repeat split|]. split; [now split | reflexivity].
  - split; [right; right; left; split;
             [reflexivity | split; [reflexivity | now exists (message err)]]|].
    split; [discriminate | intros [F _]; discriminate F].
  - split; [right; right; right; split; reflexivity|].
    split; [discriminate | intros [F _]; discriminate F].
Qed.

(** X4: the forwarder never looks at the status code of the backend's
    answer.  Two answers with the same body give the same reply to the
    client, whatever their status codes are. *)
Theorem X4_forwarder_ignores_status (H H' : Host) (t : Trace) (r r' : Response) :
  (forall el, renderToString H el = renderToString H' el) ->
  fetch H (LUCKY_API_URL H) None = Resolves r ->
  fetch H' (LUCKY_API_URL H') None = Resolves r' ->
  json r = json r' ->
  handleRoot H t = handleRoot H' t.
Proof.
  intros Hr Hf Hf' Hj. unfold handleRoot, try_catch, bind, render.
  rewrite Hf, Hf'. cbn. rewrite Hj.
  destruct (json r') as [e | data |]; cbn; try reflexivity.
  destruct data; cbn; try reflexivity; rewrite Hr; reflexivity.
Qed.

Lemma X4_forwarder_ignores_status_witness :
  handleRoot (host_after_start (answer 200 (JObj [("luckyNumber", JNum 42)]))
                fixed_markup) []
  = handleRoot (host_after_start (answer 500 (JObj [("luckyNumber", JNum 42)]))
                  fixed_markup) [].
Proof.
  apply (X4_forwarder_ignores_status
           (host_after_start (answer 200 (JObj [("luckyNumber", JNum 42)])) fixed_markup)
           (host_after_start (answer 500 (JObj [("luckyNumber", JNum 42)])) fixed_markup)
           []
           {| status := 200;
              json := JsonResolves (JObj [("luckyNumber", JNum 42)]) |}
           {| status := 500;
              json := JsonResolves (JObj [("luckyNumber", JNum 42)]) |}).
  - intros el. reflexivity.
  - reflexivity.
  - reflexivity.
  - reflexivity.
Defined.

(** X5: what one request to the forwarder does depends on the host only,
    not on what happened before, and it is one of three things: the call
    of the backend never settles (there is no timeout on it) and the
    client gets no reply and nothing is logged; or exactly one reply is
    sent, 200 with the page; or the error is logged and exactly one reply
    is sent, 500 with the fixed text. *)
Theorem X5_forwarder_one_reply (H : Host) :
  exists (o : Outcome unit) (l : list Event),
    (forall t, handleRoot H t = (o, (t ++ l)%list)) /\
    ((o = Pending /\ l = [] /\
      (fetch H (LUCKY_API_URL H) None = NeverSettles \/
       exists r, fetch H (LUCKY_API_URL H) None = Resolves r /\
                 json r = JsonNeverSettles)) \/
     (o = Return tt /\ exists html, l = [Send 200 (page html)]) \/
     (o = Return tt /\
      exists e, l = [ConsoleErrorObj e; Send 500 "Failed to fetch lucky number"])).
Proof.
  unfold handleRoot, try_catch, bind, render.
  destruct (fetch H (LUCKY_API_URL H) None) as [e | r |] eqn:Hf.
  - exists (Return tt), [ConsoleErrorObj e; Send 500 "Failed to fetch lucky number"].
    split; [intros t; now step_js|]. right; right. split; [reflexivity | now exists e].
  - destruct (json r) as [e | data |] eqn:Hj.
    + exists (Return tt), [ConsoleErrorObj e; Send 500 "Failed to fetch lucky number"].
      split; [intros t; cbn; rewrite Hj; now step_js|].
      right; right. split; [reflexivity | now exists e].
    + destruct (renderToString H (LuckyPage (own_prop data "luckyNumber")))
        as [e | html] eqn:Hr;
        destruct data as [| b | q | s | items | ms];
        try (exists (Return tt),
               [ConsoleErrorObj (null_access "luckyNumber");
                Send 500 "Failed to fetch lucky number"];
             split; [intros t; cbn; rewrite Hj; now step_js|];
             right; right; split; [reflexivity | eexists; reflexivity]);
        cbn in Hr.
      all: try (exists (Return tt),
                  [ConsoleErrorObj e; Send 500 "Failed to fetch lucky number"];
                split; [intros t; cbn; rewrite Hj; cbn; rewrite Hr; now step_js|];
                right; right; split; [reflexivity | now exists e]).
      all: exists (Return tt), [Send 200 (page html)];
           (split; [intros t; cbn; rewrite Hj; cbn; rewrite Hr; now step_js|]);
           right; left; split; [reflexivity | now exists html].
    + exists Pending, [].
      split; [intros t; cbn; rewrite Hj; cbn; now rewrite app_nil_r|].
      left. split; [reflexivity|]. split; [reflexivity|].
      right. exists r. split; [reflexivity | assumption].
  - exists Pending, [].
    split; [intros t; cbn; now rewrite app_nil_r|].
    left. split; [reflexivity|]. split; [reflexivity|]. now left.
Qed.

End FrontendMore.

(* ===================================================================== *)
(** * More on the backend                                                 *)
(* ===================================================================== *)

Section BackendMore.
Import JS Backend.

Variable R : Runtime.

(** ** busyWait for any duration *)

(** X6: [busyWait(ms)] for any [ms], on a clock that moves: it returns;
    by then the millisecond clock shows at least [ms] more than at the
    start, and no more ticks have passed than [ms] milliseconds and two
    clock calls; and it has touched nothing but the clock (no timer, no
    listener, no random number, no output). *)
Theorem X6_busyWait_bounds (P ms : Z) (w : World) :
  0 < res R -> (forall t, 0 < pace R t <= P) ->
  Z.max 0 (ms * res R) < Z.of_nat (fuel R) ->
  exists w',
    busyWait R ms w = (Return tt, w') /\
    clock R w + ms <= clock R w' /\
    now w < now w' /\
    now w' <= now w + Z.max 0 (ms * res R - 1) + 2 * P /\
    timer w' = timer w /\ listening w' = listening w /\
    draws w' = draws w /\ trace w' = trace w.
Proof.
  intros Hr Hp Hf.
  destruct (busyWait_returns R ms w Hr (fun t => proj1 (Hp t)) Hf)
    as (w' & E & A & B).
  pose proof (busyWait_upper R P ms w w' Hr (fun t => proj2 (Hp t)) E) as U.
  pose proof (busyWait_frame R ms w) as F. cbv zeta in F. rewrite E in F.
  cbn [snd] in F. destruct F as (F1 & F2 & F3 & F4).
  exists w'. repeat split; assumption.
Qed.

Lemma busyLoop_exit (n : nat) (start ms : Z) (w w' : World) :
  busyLoop R n start ms w = (Return tt, w') ->
  exists t, ms <= t / res R - start /\ now w' = t + pace R t.
Proof.
  revert w. induction n as [|n IH]; intros w E; [discriminate|].
  cbn [busyLoop] in E. unfold bind at 1, Date_now at 1 in E.
  destruct (Z.ltb_spec (now w / res R - start) ms) as [L|L].
  - apply IH in E. exact E.
  - injection E as <-. exists (now w). split; [exact L | reflexivity].
Qed.

(** X7: [busyWait(ms)] never returns early, whatever the clock does (even
    one that stands still or jumps back): when it returns, the clock call
    it made last, at some tick [t], showed at least [ms] milliseconds more
    than the first one. *)
Theorem X7_busyWait_never_early (ms : Z) (w w' : World) :
  busyWait R ms w = (Return tt, w') ->
  exists t, ms <= t / res R - now w / res R /\ now w' = t + pace R t.
Proof.
  unfold busyWait, bind at 1, Date_now at 1. intros E.
  apply busyLoop_exit in E. exact E.
Qed.

(** X8: for [ms] zero or negative the loop body never runs: the clock is
    read twice (once for [start], once for the first test) and
    [busyWait] returns. *)
Theorem X8_busyWait_nonpositive (ms : Z) (w : World) :
  ms <= 0 -> 0 < res R -> 0 <= pace R (now w) -> (0 < fuel R)%nat ->
  busyWait R ms w =
  (Return tt,
   {| now := now w + pace R (now w) + pace R (now w + pace R (now w));
      timer := timer w; listening := listening w;
      draws := draws w; trace := trace w |}).
Proof.
  intros Hms Hr Hp Hf. unfold busyWait, bind at 1, Date_now at 1.
  destruct (fuel R) as [|n]; [inversion Hf|].
  cbn [busyLoop]. unfold bind, Date_now. cbn [now timer listening draws trace].
  assert (D : now w / res R <= (now w + pace R (now w)) / res R)
    by (apply Z.div_le_mono; lia).
  destruct (Z.ltb_spec ((now w + pace R (now w)) / res R - now w / res R) ms);
    [lia | reflexivity].
Qed.

(** ** The number *)

Lemma two_digits (n : Z) :
  10 <= n <= 99 -> String.length (show_Z n) = 2%nat.
Proof.
  intros Hn.
  assert (A : forallb (fun k => Nat.eqb (String.length (show_Z (Z.of_nat k))) 2)
                (seq 10 90) = true) by (vm_compute; reflexivity).
  rewrite forallb_forall in A.
  specialize (A (Z.to_nat n)). rewrite Z2Nat.id in A by lia.
  apply Nat.eqb_eq, A, in_seq. lia.
Qed.

(** X9: for a random source that hands out doubles of the unit interval,
    the lucky number always has exactly two decimal digits, in the log
    line as in the reply. *)
Theorem X9_lucky_number_two_digits (u : Q) :
  is_double u = true -> (0 <= u)%Q -> (u < 1)%Q ->
  String.length (show_Z (lucky_of u)) = 2%nat.
Proof.
  intros D L U. apply two_digits. now apply lucky_of_range.
Qed.

Lemma lucky_of_middles :
  forallb (fun k =>
             let u := round64 ((2 * Z.of_nat k - 19) # 180) in
             is_double u && Qle_bool 0 u && negb (Qle_bool 1 u)
             && (lucky_of u =? Z.of_nat k))
          (seq 10 90) = true.
Proof. vm_compute. reflexivity. Qed.

(** X10: in doubles, a larger value of the random source never gives a
    smaller number, and every number from 10 to 99 does come out: [n] is
    what the double nearest to [(n - 9.5) / 90], the middle of the
    interval of [n], gives.  The left end of the interval does not do:
    the double nearest to [49 / 90] gives 58, not 59. *)
Theorem X10_lucky_of_monotone_onto :
  (forall u v : Q, (0 <= u)%Q -> (u <= v)%Q -> lucky_of u <= lucky_of v) /\
  (forall n : Z, 10 <= n <= 99 ->
     let u := round64 ((2 * n - 19) # 180) in
     is_double u = true /\ (0 <= u)%Q /\ (u < 1)%Q /\ lucky_of u = n) /\
  lucky_of (round64 (49 # 90)) = 58.
Proof.
  split; [|split].
  - intros u v Hu Huv. now apply lucky_of_mono.
  - intros n Hn. cbv zeta.
    pose proof lucky_of_middles as A. rewrite forallb_forall in A.
    specialize (A (Z.to_nat n)). rewrite Z2Nat.id in A by lia.
    cbv zeta in A.
    assert (I : In (Z.to_nat n) (seq 10 90)) by (apply in_seq; lia).
    specialize (A I).
    apply andb_prop in A. destruct A as [A A4].
    apply andb_prop in A. destruct A as [A A3].
    apply andb_prop in A. destruct A as [A1 A2].
    split; [exact A1|]. split; [now apply Qle_bool_iff|]. split.
    + apply Qnot_le_lt. intros F. apply Qle_bool_iff in F.
      rewrite F in A3. discriminate.
    + now apply Z.eqb_eq.
  - vm_compute. reflexivity.
Qed.

(** ** The environment of the /lucky handler *)

Lemma busyLoop_with_env (e : string -> option string) (n : nat) (start ms : Z)
  (w : World) :
  busyLoop (with_env R e) n start ms w = busyLoop R n start ms w.
Proof.
  revert w. induction n as [|n IH]; intros w; [reflexivity|].
  cbn [busyLoop]. unfold bind, Date_now. cbn [res pace with_env].
  destruct (now w / res R - start <? ms); [apply IH | reflexivity].
Qed.

(** The loop looks at the tick only, and hands the rest of the state on. *)
Lemma busyLoop_now (n : nat) (start ms : Z) (t : Z) :
  exists (o : Outcome unit) (t' : Z),
    forall w, now w = t ->
      busyLoop R n start ms w =
      (o, {| now := t'; timer := timer w; listening := listening w;
             draws := draws w; trace := trace w |}).
Proof.
  revert t. induction n as [|n IH]; intros t.
  - exists Pending, t. intros [nw tm ls ds tr] E. cbn in E. subst. reflexivity.
  - cbn [busyLoop]. unfold bind, Date_now.
    destruct (IH (t + pace R t)) as (o & t' & Hn).
    destruct (t / res R - start <? ms) eqn:L.
    + exists o, t'. intros w E. cbv beta iota. rewrite E, L.
      rewrite Hn by reflexivity. reflexivity.
    + exists (Return tt), (t + pace R t). intros w E. cbv beta iota.
      rewrite E, L. reflexivity.
Qed.

(** X11: the environment of the backend (the pod name) shows in the log
    lines of the [/lucky] handler and nowhere else: with any other
    environment the handler ends in the same way at the same tick, draws
    the same random number and gives the same answer. *)
Theorem X11_pod_name_only_in_logs (e : string -> option string)
  (req : Request) (w : World) :
  fst (lucky (with_env R e) req w) = fst (lucky R req w) /\
  now (snd (lucky (with_env R e) req w)) = now (snd (lucky R req w)) /\
  draws (snd (lucky (with_env R e) req w)) = draws (snd (lucky R req w)) /\
  answers (snd (lucky (with_env R e) req w)) = answers (snd (lucky R req w)).
Proof.
  unfold lucky, busyWait.
  unfold bind, console_log, emit, modify, Date_now.
  cbn [now timer listening draws trace res pace fuel with_env].
  rewrite busyLoop_with_env.
  destruct (busyLoop_now (fuel R) (now w / res R) 5000 (now w + pace R (now w)))
    as (o & t' & Hn).
  rewrite !Hn by reflexivity.
  destruct o as [[] | err | c |]; cbn [fst snd now draws];
    repeat split; unfold answers, Math_random, res_json, emit, modify;
    cbn [trace now timer listening draws fst snd random with_env];
    rewrite <- ?app_assoc, !filter_app; cbn; reflexivity.
Qed.

(** ** What the backend never does *)









(** ** One answer for each request *)

Lemma answered_in_app (l1 l2 : list (Z * Event)) :
  answered_in (l1 ++ l2) = (answered_in l1 ++ answered_in l2)%list.
Proof.
  induction l1 as [|[tick e] l1 IH]; [reflexivity|].
  cbn. destruct e; cbn; now rewrite IH.
Qed.

Lemma answered_in_answers (t : list (Z * Event)) :
  answered_in (filter is_answer t) = answered_in t.
Proof.
  induction t as [|[tick e] t IH]; [reflexivity|].
  destruct e; cbn; now rewrite IH.
Qed.

Lemma answered_of_answers (w1 w2 : World) :
  answers w1 = answers w2 -> answered w1 = answered w2.
Proof.
  unfold answers, answered. intros E.
  now rewrite <- (answered_in_answers (trace w1)), E, answered_in_answers.
Qed.

Lemma deliver_route (t0 : Z) (req : Request) (w : World) :
  0 < res R -> (forall t, 0 < pace R t) ->
  5000 * res R < Z.of_nat (fuel R) ->
  startup_invariant R t0 w ->
  path req = "/lucky" \/ path req = "/ping" ->
  exists w',
    deliver R req w = (Return tt, w') /\
    answered w' = (answered w ++ [req])%list /\
    length (draws w') =
    (length (draws w) +
     (if reaches_lucky (t0 + 5000 * res R) req then 1 else 0))%nat.
Proof.
  intros Hr Hp Hf Hi Hpath. unfold reaches_lucky.
  destruct (Z.leb_spec (t0 + 5000 * res R) (arrived req)) as [Ha|Ha].
  - destruct (deliver_accepted R t0 req w Hr Hi Ha)
      as (wm & E & A & B & C & D & F & _).
    apply answered_of_answers in F. rewrite E.
    unfold dispatch, routes. cbn [find_route].
    destruct Hpath as [Hpa | Hpa]; rewrite Hpa;
      cbn [String.eqb Ascii.eqb Bool.eqb andb].
    + destruct (lucky_run R req wm Hr Hp Hf) as (t & _ & _ & E2).
      rewrite E2. eexists. split; [reflexivity|].
      unfold answered. cbn [trace draws]. rewrite answered_in_app. cbn.
      fold (answered wm). rewrite F, D, List.length_app. split; reflexivity.
    + eexists. split; [reflexivity|].
      unfold answered. cbn [trace draws]. rewrite answered_in_app. cbn.
      fold (answered wm). rewrite F, D. split; [reflexivity | lia].
  - rewrite (deliver_refused R t0 req w Hr Hi Ha).
    eexists. split; [reflexivity|].
    unfold answered. cbn [trace draws andb]. rewrite answered_in_app. cbn.
    split; [reflexivity | lia].
Qed.

(** X12: requests for [/lucky] and [/ping] are answered one by one in
    the order in which they are taken up: serving a list of them returns,
    every request gets exactly one answer (a reply, or a refusal when it
    came before the port was bound), and the random source has been asked
    exactly once for each [/lucky] request that reached its handler. *)
Theorem X12_one_answer_each (t0 : Z) (reqs : list Request) (w : World) :
  0 < res R -> (forall t, 0 < pace R t) ->
  5000 * res R < Z.of_nat (fuel R) ->
  reachable R t0 w ->
  Forall (fun req => path req = "/lucky" \/ path req = "/ping") reqs ->
  exists w',
    serve R reqs w = (Return tt, w') /\
    reachable R t0 w' /\
    answered w' = (answered w ++ reqs)%list /\
    length (draws w') =
    (length (draws w) +
     length (filter (reaches_lucky (t0 + 5000 * res R)) reqs))%nat.
Proof.
  intros Hr Hp Hf Hw Hall. revert w Hw.
  induction Hall as [|req rest Hpath _ IH]; intros w Hw.
  - exists w. cbn. rewrite app_nil_r. repeat split; [assumption | lia].
  - destruct (deliver_route t0 req w Hr Hp Hf (reachable_invariant R t0 w Hr Hw) Hpath)
      as (w1 & E & A & D).
    assert (Hw1 : reachable R t0 w1) by (eapply reach_deliver; eassumption).
    destruct (IH w1 Hw1) as (w' & E' & Hw' & A' & D').
    exists w'. cbn [serve]. unfold bind at 1. rewrite E, E'.
    repeat split; try assumption.
    + rewrite A', A, <- app_assoc. reflexivity.
    + rewrite D', D. cbn [filter].
      destruct (reaches_lucky (t0 + 5000 * res R) req); cbn [length]; lia.
Qed.

(** ** The listener *)

Lemma lucky_trace (req : Request) (w : World) :
  exists l, trace (snd (lucky R req w)) = (trace w ++ l)%list /\
            filter is_listen l = [].
Proof.
  destruct (lucky R req w) as [o w'] eqn:E. cbn [snd]. revert E.
  unfold lucky, bind at 1, console_log at 1, emit at 1, modify at 1.
  unfold bind at 1, console_log at 1, emit at 1, modify at 1.
  unfold bind at 1.
  match goal with |- context [busyWait R 5000 ?w2] =>
    pose proof (busyWait_frame R 5000 w2) as F; cbv zeta in F;
    destruct (busyWait R 5000 w2) as [[[] | e | c |] w3]
  end; cbn in F; destruct F as (_ & _ & _ & F4);
    unfold bind, Math_random, console_log, res_json, emit, modify; cbn;
    intros [= <- <-]; cbn [trace]; rewrite F4, <- ?app_assoc;
    eexists; (split; [reflexivity|]); reflexivity.
Qed.

Lemma dispatch_trace (req : Request) (w : World) :
  exists l, trace (snd (dispatch R req w)) = (trace w ++ l)%list /\
            filter is_listen l = [].
Proof.
  unfold dispatch, routes. cbn [find_route].
  destruct (String.eqb "/lucky" (path req)); [apply lucky_trace|].
  destruct (String.eqb "/ping" (path req)); cbn;
    eexists; (split; [reflexivity|]); reflexivity.
Qed.

Lemma deliver_listens (t0 : Z) (req : Request) (w : World) :
  0 < res R -> startup_invariant R t0 w ->
  exists l,
    trace (snd (deliver R req w)) = (trace w ++ l)%list /\
    ((listening w = None /\ t0 + 5000 * res R <= arrived req /\
      listening (snd (deliver R req w)) = Some (t0 + 5000 * res R) /\
      filter is_listen l = [(t0 + 5000 * res R, Listen (PORT R))]) \/
     (listening (snd (deliver R req w)) = listening w /\
      filter is_listen l = [])).
Proof.
  intros Hr Hi.
  destruct (Z.le_gt_cases (t0 + 5000 * res R) (arrived req)) as [Ha|Ha].
  - destruct (deliver_accepted R t0 req w Hr Hi Ha)
      as (wm & E & A & B & C & D & F & G & T).
    rewrite E.
    destruct (dispatch_trace req wm) as (l & Tl & Nl).
    destruct (dispatch_frame R req wm) as [_ Fl].
    rewrite Tl, Fl, B, T.
    destruct Hi as [(Ht & Hl & Hn) | (Ht & Hl)]; unfold fire_due; rewrite Ht.
    + destruct (Z.leb_spec (t0 + 5000 * res R) (Z.max (arrived req) (now w)));
        [|lia].
      unfold run_callback, startupDelay_resumed, on_started, app_listen, bind,
        console_log, emit, modify.
      cbn [snd trace now].
      replace (Z.max (t0 + 5000 * res R) (now w)) with (t0 + 5000 * res R) by lia.
      rewrite <- !app_assoc. eexists. split; [reflexivity|].
      left. repeat split; try assumption.
      rewrite !filter_app, Nl. reflexivity.
    + cbn [snd]. exists l. split; [reflexivity|]. right. split; [now rewrite Hl | exact Nl].
  - rewrite (deliver_refused R t0 req w Hr Hi Ha). cbn [snd trace listening].
    eexists. split; [reflexivity|]. right. split; reflexivity.
Qed.

(** X13: the port is bound at most once.  In every state the process can
    be in between two requests, its log begins with the line written at
    the start, and either nothing listens and [app.listen] was never
    called, or [app.listen] was called exactly once, for [PORT], at the
    tick 5000 ms after the start. *)
Theorem X13_listens_once (t0 : Z) (w : World) :
  0 < res R -> reachable R t0 w ->
  (exists rest,
      trace w = (t0, ConsoleLog "App is starting... please wait") :: rest) /\
  ((listening w = None /\ listens w = []) \/
   (listening w = Some (t0 + 5000 * res R) /\
    listens w = [(t0 + 5000 * res R, Listen (PORT R))])).
Proof.
  intros Hr Hw. induction Hw as [w E | w req w' Hw IH E].
  - injection E as <-. split; [eexists; reflexivity|]. left. split; reflexivity.
  - destruct IH as [[rest Hrest] Hl].
    pose proof (reachable_invariant R t0 w Hr Hw) as Hi.
    destruct (deliver_listens t0 req w Hr Hi) as (l & Tl & Hcase).
    rewrite E in Tl, Hcase. cbn [snd] in Tl, Hcase.
    split.
    + rewrite Tl, Hrest. eexists. reflexivity.
    + unfold listens in *. rewrite Tl, filter_app.
      destruct Hcase as [(Hn & _ & Hs & Hf) | (Hs & Hf)]; rewrite Hf.
      * right. split; [exact Hs|].
        destruct Hl as [[_ L0] | [L1 _]]; [now rewrite L0 | congruence].
      * rewrite app_nil_r, Hs. exact Hl.
Qed.

(** ** The cost of a /ping *)

(** X15: a [/ping] that finds the port bound takes no time and draws no
    random number: it is answered at the tick at which the loop takes it
    up (its arrival, or the end of the work before it), and the loop is
    free again at that same tick. *)
Theorem X15_ping_takes_no_time (t0 a : Z) (w : World) :
  0 < res R -> reachable R t0 w -> t0 + 5000 * res R <= a ->
  exists w',
    deliver R {| arrived := a; path := "/ping" |} w = (Return tt, w') /\
    now w' = Z.max a (now w) /\
    draws w' = draws w /\
    answers w' =
    (answers w ++
     [(now w', Reply {| arrived := a; path := "/ping" |} 200 ping_body)])%list.
Proof.
  intros Hr Hw Ha.
  destruct (deliver_accepted R t0 {| arrived := a; path := "/ping" |} w Hr
              (reachable_invariant R t0 w Hr Hw) Ha)
    as (wm & E & A & B & C & D & F & _).
  cbn [arrived] in C. rewrite E. eexists. split; [reflexivity|].
  cbn [now draws]. split; [exact C|]. split; [exact D|].
  unfold answers. cbn [trace]. rewrite filter_app. cbn.
  fold (answers wm). now rewrite F.
Qed.

End BackendMore.

(* ===================================================================== *)
(** * The further facts on the sample hosts and the sample runtime        *)
(* ===================================================================== *)

Section MoreSamples.
Import JS.

Lemma X1_probe_url_differs_witness :
  Frontend.PING_URL
    (Frontend.host_with (Some "http://localhost:3001/lucky/")
       Frontend.NeverSettles Frontend.fixed_markup)
  = Frontend.LUCKY_API_URL
      (Frontend.host_with (Some "http://localhost:3001/lucky/")
         Frontend.NeverSettles Frontend.fixed_markup).
Proof.
  apply (proj2 (proj1 (X1_probe_url_differs
                         (Frontend.host_with (Some "http://localhost:3001/lucky/")
                            Frontend.NeverSettles Frontend.fixed_markup)))).
  reflexivity.
Defined.

Lemma X3_main_outcomes_witness :
  Frontend.listening
    (snd (Frontend.main
            (Frontend.host_with None (Frontend.answer 200 Frontend.ok_body)
               Frontend.fixed_markup) [])) = true.
Proof.
  apply (proj2 (proj2 (X3_main_outcomes
                         (Frontend.host_with None
                            (Frontend.answer 200 Frontend.ok_body)
                            Frontend.fixed_markup)))).
  split; reflexivity.
Defined.

Lemma X2_probe_absorbs_failures_witness :
  Frontend.checkLuckyNumberApp
    (Frontend.host_with None (Frontend.answer 503 Frontend.ok_body)
       Frontend.fixed_markup) [] =
  (Return false,
   [Frontend.ConsoleError
      (spaced "Could not reach lucky-number-app /ping endpoint:" "Ping failed")]).
Proof.
  apply (proj1 (proj2 (proj1 (X2_probe_absorbs_failures
                                (Frontend.host_with None
                                   (Frontend.answer 503 Frontend.ok_body)
                                   Frontend.fixed_markup) [])))
           {| Frontend.status := 503;
              Frontend.json := Frontend.JsonResolves Frontend.ok_body |});
    reflexivity.
Defined.

Import Backend.

Lemma X6_busyWait_bounds_witness :
  exists w',
    busyWait sample 3000 sample_ready = (Return tt, w') /\
    clock sample sample_ready + 3000 <= clock sample w' /\
    now sample_ready < now w' /\
    now w' <= now sample_ready + Z.max 0 (3000 * res sample - 1) + 2 * 1000 /\
    timer w' = timer sample_ready /\ listening w' = listening sample_ready /\
    draws w' = draws sample_ready /\ trace w' = trace sample_ready.
Proof.
  apply (X6_busyWait_bounds sample 1000 3000 sample_ready).
  - reflexivity.
  - intros t. cbn. lia.
  - vm_compute. reflexivity.
Defined.

Lemma X7_busyWait_never_early_witness :
  exists t,
    3000 <= t / res sample - now sample_ready / res sample /\
    now (snd (busyWait sample 3000 sample_ready)) = t + pace sample t.
Proof.
  apply (X7_busyWait_never_early sample 3000 sample_ready
           (snd (busyWait sample 3000 sample_ready))).
  vm_compute. reflexivity.
Defined.

Lemma X8_busyWait_nonpositive_witness :
  busyWait sample 0 sample_ready =
  (Return tt,
   {| now := now sample_ready + pace sample (now sample_ready)
             + pace sample (now sample_ready + pace sample (now sample_ready));
      timer := timer sample_ready; listening := listening sample_ready;
      draws := draws sample_ready; trace := trace sample_ready |}).
Proof.
  apply (X8_busyWait_nonpositive sample 0 sample_ready).
  - lia.
  - reflexivity.
  - cbn. lia.
  - vm_compute. lia.
Defined.

Lemma X9_lucky_number_two_digits_witness :
  String.length (show_Z (lucky_of (1 # 2))) = 2%nat.
Proof.
  apply (X9_lucky_number_two_digits (1 # 2)).
  - vm_compute. reflexivity.
  - discriminate.
  - reflexivity.
Defined.

Lemma X10_lucky_of_monotone_onto_witness :
  lucky_of (1 # 3) <= lucky_of (1 # 2) /\
  (let u := round64 ((2 * 59 - 19) # 180) in
   is_double u = true /\ (0 <= u)%Q /\ (u < 1)%Q /\ lucky_of u = 59).
Proof.
  split.
  - apply (proj1 X10_lucky_of_monotone_onto (1 # 3)%Q (1 # 2)%Q).
    + discriminate.
    + unfold Qle. cbn. lia.
  - apply (proj1 (proj2 X10_lucky_of_monotone_onto) 59). lia.
Defined.


Lemma X12_one_answer_each_witness :
  exists w',
    serve sample
      [ {| arrived := 6000; path := "/lucky" |};
        {| arrived := 6000; path := "/ping" |};
        {| arrived := 100; path := "/lucky" |} ] sample_ready = (Return tt, w') /\
    reachable sample 0 w' /\
    answered w' =
    (answered sample_ready ++
     [ {| arrived := 6000; path := "/lucky" |};
       {| arrived := 6000; path := "/ping" |};
       {| arrived := 100; path := "/lucky" |} ])%list /\
    length (draws w') =
    (length (draws sample_ready) +
     length (filter (reaches_lucky (0 + 5000 * res sample))
               [ {| arrived := 6000; path := "/lucky" |};
                 {| arrived := 6000; path := "/ping" |};
                 {| arrived := 100; path := "/lucky" |} ]))%nat.
Proof.
  apply (X12_one_answer_each sample 0
           [ {| arrived := 6000; path := "/lucky" |};
             {| arrived := 6000; path := "/ping" |};
             {| arrived := 100; path := "/lucky" |} ] sample_ready).
  - reflexivity.
  - intros t. reflexivity.
  - vm_compute. reflexivity.
  - exact sample_ready_reachable.
  - constructor; [left; reflexivity|].
    constructor; [right; reflexivity|].
    constructor; [left; reflexivity|].
    constructor.
Defined.

Lemma X13_listens_once_witness :
  (exists rest,
      trace sample_ready =
      (0, ConsoleLog "App is starting... please wait") :: rest) /\
  ((listening sample_ready = None /\ listens sample_ready = []) \/
   (listening sample_ready = Some (0 + 5000 * res sample) /\
    listens sample_ready = [(0 + 5000 * res sample, Listen (PORT sample))])).
Proof.
  apply (X13_listens_once sample 0 sample_ready).
  - reflexivity.
  - exact sample_ready_reachable.
Defined.

Lemma X15_ping_takes_no_time_witness :
  exists w',
    deliver sample {| arrived := 6000; path := "/ping" |} sample_ready
    = (Return tt, w') /\
    now w' = Z.max 6000 (now sample_ready) /\
    draws w' = draws sample_ready /\
    answers w' =
    (answers sample_ready ++
     [(now w', Reply {| arrived := 6000; path := "/ping" |} 200 ping_body)])%list.
Proof.
  apply (X15_ping_takes_no_time sample 0 6000 sample_ready).
  - reflexivity.
  - exact sample_ready_reachable.
  - cbn. lia.
Defined.

End MoreSamples.
